(** * Shallow embedding of the validation framework core

    Models the signal codec and blocking reads of
    [middleware/broker.py] ([InteractionBroker]), the in-memory port of
    [hal/implementations/mock_can_port.py], the port factory of
    [hal/implementations/hal_manager.py], the catalogs, CAN id parsing
    and profile merging of [config_loader/models.py], the precondition
    engine of [services/precondition_service.py], the capture, backend
    and DTC state of [services/domain_service.py] and the keyword
    dispatch of [keywords/]. *)

From Stdlib Require Import String Ascii List ZArith NArith Lia Bool.
Import ListNotations.
Open Scope string_scope.
Set Warnings "-register-all".


(** ** Python runtime fragments *)

(** Exceptions raised by the modelled code.  [EnvironmentFault] carries
    the exception it was raised [from] (its [__cause__]). *)
Inductive exn : Type :=
| KeyError (msg : string)
| ValueError (msg : string)
| TypeError (msg : string)
| OverflowError (msg : string)
| CanError (msg : string)
| CanTimeoutError (msg : string)
| HalError (msg : string)
| SutFault (msg : string)
| EnvironmentFault (msg : string) (cause : option exn)
| OtherError (msg : string).

(** A computation that returns a value or raises. *)
Inductive result (A : Type) : Type :=
| Ok (a : A)
| Raise (e : exn).
Arguments Ok {A} a.
Arguments Raise {A} e.

Definition bind {A B} (r : result A) (f : A -> result B) : result B :=
  match r with
  | Ok a => f a
  | Raise e => Raise e
  end.

Notation "'let!' x := r 'in' k" := (bind r (fun x => k))
  (at level 200, x name, r at level 100, k at level 200).

(** Python values that flow through the broker: decoded signal values are
    ints or mapping keys (str); precondition step values are
    [Optional[str]]. *)
Inductive pyval : Type :=
| VInt (z : Z)
| VStr (s : string)
| VNone.

Definition pyval_eqb (a b : pyval) : bool :=
  match a, b with
  | VInt x, VInt y => Z.eqb x y
  | VStr s, VStr t => String.eqb s t
  | VNone, VNone => true
  | _, _ => false
  end.

(** [str.upper] on ASCII text. *)
Definition ascii_upper (c : ascii) : ascii :=
  let n := nat_of_ascii c in
  if (97 <=? n)%nat && (n <=? 122)%nat then ascii_of_nat (n - 32) else c.

Fixpoint upper (s : string) : string :=
  match s with
  | EmptyString => EmptyString
  | String c s' => String (ascii_upper c) (upper s')
  end.

(** Decimal rendering of an integer, as [str(int)]. *)
Definition digit_char (d : N) : ascii := ascii_of_N (48 + d).

Fixpoint N_digits (fuel : nat) (n : N) (acc : string) : string :=
  match fuel with
  | O => acc
  | S f =>
      if (n <? 10)%N then String (digit_char n) acc
      else N_digits f (n / 10)%N (String (digit_char (n mod 10)%N) acc)
  end.

Definition N_to_string (n : N) : string :=
  N_digits (S (N.to_nat (N.size n))) n EmptyString.

Definition Z_to_string (z : Z) : string :=
  if (z <? 0)%Z then "-" ++ N_to_string (Z.to_N (- z))
  else N_to_string (Z.to_N z).

(** [str(value)]. *)
Definition py_str (v : pyval) : string :=
  match v with
  | VInt z => Z_to_string z
  | VStr s => s
  | VNone => "None"
  end.

(** [repr] of a decoded value (quote escaping is not modelled). *)
Definition py_repr (v : pyval) : string :=
  match v with
  | VInt z => Z_to_string z
  | VStr s => "'" ++ s ++ "'"
  | VNone => "None"
  end.

(** [int(value)]: a str is parsed as an optionally signed run of decimal
    digits surrounded by blanks (underscore separators are not modelled). *)
Definition is_blank (c : ascii) : bool :=
  let n := nat_of_ascii c in (n =? 32)%nat || ((9 <=? n)%nat && (n <=? 13)%nat).

Fixpoint lstrip (s : string) : string :=
  match s with
  | String c s' => if is_blank c then lstrip s' else s
  | EmptyString => EmptyString
  end.

Definition strip (s : string) : string :=
  string_of_list_ascii (rev (list_ascii_of_string
    (lstrip (string_of_list_ascii (rev (list_ascii_of_string (lstrip s))))))).

Fixpoint parse_digits (s : string) (acc : Z) : option Z :=
  match s with
  | EmptyString => Some acc
  | String c s' =>
      let n := nat_of_ascii c in
      if (48 <=? n)%nat && (n <=? 57)%nat
      then parse_digits s' (acc * 10 + Z.of_nat (n - 48))%Z
      else None
  end.

Definition parse_unsigned (s : string) : option Z :=
  match s with
  | EmptyString => None
  | _ => parse_digits s 0%Z
  end.

Definition parse_int (s : string) : option Z :=
  match strip s with
  | String "-" r => option_map Z.opp (parse_unsigned r)
  | String "+" r => parse_unsigned r
  | r => parse_unsigned r
  end.

Definition py_int (v : pyval) : result Z :=
  match v with
  | VInt z => Ok z
  | VStr s =>
      match parse_int s with
      | Some z => Ok z
      | None => Raise (ValueError ("invalid literal for int() with base 10: " ++ s))
      end
  | VNone => Raise (TypeError "int() argument must be a string or a number")
  end.

(** [int.to_bytes(1, byteorder="big")] and [int.from_bytes(data[:1], "big")]. *)
Definition byte_of_Z (x : Z) : Byte.byte :=
  match Byte.of_N (Z.to_N x) with Some b => b | None => Byte.x00 end.

Definition to_bytes1 (x : Z) : result (list Byte.byte) :=
  if (x <? 0)%Z then Raise (OverflowError "can't convert negative int to unsigned")
  else if (255 <? x)%Z then Raise (OverflowError "int too big to convert")
  else Ok [byte_of_Z x].

Definition from_bytes1 (data : list Byte.byte) : Z :=
  match data with
  | [] => 0%Z
  | b :: _ => Z.of_N (Byte.to_N b)
  end.

(** ** Configuration models ([config_loader/models.py]) *)

(** [PayloadDefinition.type]; the validator admits only these three. *)
Inductive payload_type : Type := PT_enum | PT_uint | PT_int.

Record PayloadDefinition : Type := {
  ptype : payload_type;
  mapping : list (string * Z)   (* Dict[str, int], insertion ordered *)
}.

Record SignalDefinition : Type := {
  sig_name : string;
  bus : string;
  can_id : Z;
  sig_payload : PayloadDefinition
}.

(** Dict lookup by key. *)
Fixpoint dict_get {V} (k : string) (d : list (string * V)) : option V :=
  match d with
  | [] => None
  | (k', v) :: d' => if String.eqb k k' then Some v else dict_get k d'
  end.

(** ** Frames ([hal/types/can_types.py]) *)
Record CanMessage : Type := {
  msg_can_id : Z;
  msg_data : list Byte.byte;
  is_extended_id : bool;
  timestamp : option Z
}.

(** ** Codec ([InteractionBroker._encode] / [_decode]) *)
Definition _encode (signal_def : SignalDefinition) (value : pyval) : result CanMessage :=
  let! payload_value :=
    match ptype (sig_payload signal_def) with
    | PT_enum =>
        match dict_get (upper (py_str value)) (mapping (sig_payload signal_def)) with
        | Some x => Ok x
        | None => Raise (ValueError ("Value " ++ py_repr value ++ " is not valid for signal "
                                   ++ sig_name signal_def))
        end
    | _ => py_int value
    end in
  let! data := to_bytes1 payload_value in
  Ok {| msg_can_id := can_id signal_def; msg_data := data;
        is_extended_id := false; timestamp := None |}.

Fixpoint first_key_with_value (payload : Z) (m : list (string * Z)) : option string :=
  match m with
  | [] => None
  | (key, value) :: m' =>
      if Z.eqb value payload then Some key else first_key_with_value payload m'
  end.

Definition _decode (signal_def : SignalDefinition) (message : CanMessage) : pyval :=
  let payload := from_bytes1 (msg_data message) in
  match ptype (sig_payload signal_def) with
  | PT_enum =>
      match first_key_with_value payload (mapping (sig_payload signal_def)) with
      | Some key => VStr key
      | None => VInt payload
      end
  | _ => VInt payload
  end.

(** decode after encode, as one partial function of the value. *)
Definition roundtrip (signal_def : SignalDefinition) (value : pyval) : result pyval :=
  let! m := _encode signal_def value in Ok (_decode signal_def m).


(** [str(exc)]: a [KeyError] renders its argument with [repr]. *)
Definition str_exn (e : exn) : string :=
  match e with
  | KeyError m => "'" ++ m ++ "'"
  | ValueError m | TypeError m | OverflowError m | CanError m
  | CanTimeoutError m | HalError m | SutFault m | OtherError m => m
  | EnvironmentFault m _ => m
  end.

(** [except HalError]: [CanError] and [CanTimeoutError] are subclasses. *)
Definition is_hal_error (e : exn) : bool :=
  match e with
  | CanError _ | CanTimeoutError _ | HalError _ => true
  | _ => false
  end.

(** [SignalCatalog.get]. *)
Definition SignalCatalog := list (string * SignalDefinition).

Definition signal_catalog_get (c : SignalCatalog) (name : string) : result SignalDefinition :=
  match dict_get name c with
  | Some d => Ok d
  | None => Raise (KeyError ("Signal '" ++ name ++ "' is not defined in the configuration"))
  end.

(** ** Port factory ([hal/implementations/hal_manager.py]) *)

Inductive BaseCanPort : Type :=
| HilCanPort (bus_name : string) (port_config : list (string * string))
| MockCanPort (bus_name : string).

(** [hm_config] is the [interfaces.can] level of the configuration:
    bus name to port options. *)
Record HalManager : Type := {
  hm_mode : string;
  hm_config : list (string * list (string * string));
  hm_can_ports : list (string * BaseCanPort)
}.

Section HalManagerDef.
(** Opening a hardware bus ([HilCanPort.__init__]) may raise [CanError]. *)
Variable hil_open : string -> list (string * string) -> result BaseCanPort.

(** [HalManager.__init__]: stores the upper-cased mode; it never raises. *)
Definition HalManager_init (mode : string)
    (config : list (string * list (string * string))) : result HalManager :=
  Ok {| hm_mode := upper mode; hm_config := config; hm_can_ports := [] |}.

Definition get_can_port (self : HalManager) (bus_name : string)
    : result (BaseCanPort * HalManager) :=
  match dict_get bus_name (hm_can_ports self) with
  | Some p => Ok (p, self)
  | None =>
      let port_config :=
        match dict_get bus_name (hm_config self) with Some c => c | None => [] end in
      let! port :=
        if String.eqb (hm_mode self) "HIL" then hil_open bus_name port_config
        else if String.eqb (hm_mode self) "MOCK" || String.eqb (hm_mode self) "SIL"
        then Ok (MockCanPort bus_name)
        else Raise (CanError ("Unsupported execution mode: " ++ hm_mode self)) in
      Ok (port, {| hm_mode := hm_mode self; hm_config := hm_config self;
                   hm_can_ports := hm_can_ports self ++ [(bus_name, port)] |})
  end.
End HalManagerDef.

(** ** Blocking reads of [InteractionBroker]

    Time is an integer number of milliseconds.  The world [W] holds the
    clock and the ports; [time_time] is [time.time()] and [receive bus t]
    is [receive(timeout_s=t)] on the port of [bus] (the port lookup through
    [HalManager.get_can_port] is folded into [receive]).  A [while True]
    loop runs on fuel: [None] means the fuel ran out before the loop
    returned or raised. *)
Section Broker.
Variable W : Type.
Variable time_time : W -> Z * W.
Variable receive : string -> Z -> W -> option (result CanMessage * W).
Variable config : SignalCatalog.

Definition timeout_msg (name : string) (expected : pyval) : string :=
  "System did not produce signal " ++ name ++ "=" ++ py_str expected ++ " before timeout".

(** The loop of [wait_for_signal]. *)
Fixpoint wait_loop (fuel : nat) (signal_name : string) (signal_def : SignalDefinition)
    (expected_value : pyval) (deadline : option Z) (polling_interval : Z) (w : W)
    : option (result unit * W) :=
  match fuel with
  | O => None
  | S fuel' =>
      let '(expired, w) :=
        match deadline with
        | Some d => if negb (Z.eqb d 0) then
                      let '(t, w') := time_time w in ((d <? t)%Z, w')
                    else (false, w)
        | None => (false, w)
        end in
      if expired then Some (Raise (SutFault (timeout_msg signal_name expected_value)), w)
      else
        match receive (bus signal_def) polling_interval w with
        | None => None
        | Some (Raise (CanTimeoutError _), w) =>
            match deadline with
            | None => wait_loop fuel' signal_name signal_def expected_value deadline polling_interval w
            | Some d =>
                let '(t, w) := time_time w in
                if (d <? t)%Z then
                  Some (Raise (SutFault ("Timeout waiting for " ++ signal_name ++ "="
                               ++ py_str expected_value ++ " on bus " ++ bus signal_def)), w)
                else wait_loop fuel' signal_name signal_def expected_value deadline polling_interval w
            end
        | Some (Raise e, w) =>
            if is_hal_error e then
              Some (Raise (EnvironmentFault ("HAL failure while waiting for " ++ signal_name
                                             ++ ": " ++ str_exn e) (Some e)), w)
            else Some (Raise e, w)
        | Some (Ok message, w) =>
            if negb (Z.eqb (msg_can_id message) (can_id signal_def)) then
              wait_loop fuel' signal_name signal_def expected_value deadline polling_interval w
            else if pyval_eqb (_decode signal_def message) expected_value then Some (Ok tt, w)
            else wait_loop fuel' signal_name signal_def expected_value deadline polling_interval w
        end
  end.

(** [wait_for_signal(signal_name, expected_value, timeout_s, polling_interval)]. *)
Definition wait_for_signal (fuel : nat) (signal_name : string) (expected_value : pyval)
    (timeout_s : option Z) (polling_interval : Z) (w : W) : option (result unit * W) :=
  match signal_catalog_get config signal_name with
  | Raise e => Some (Raise e, w)
  | Ok signal_def =>
      let '(deadline, w) :=
        match timeout_s with
        | None => (None, w)
        | Some t => let '(now, w') := time_time w in (Some (now + t)%Z, w')
        end in
      wait_loop fuel signal_name signal_def expected_value deadline polling_interval w
  end.

(** The loop of [get_signal]. *)
Fixpoint get_loop (fuel : nat) (signal_name : string) (signal_def : SignalDefinition)
    (deadline : Z) (w : W) : option (result pyval * W) :=
  match fuel with
  | O => None
  | S fuel' =>
      let '(now, w) := time_time w in
      let remaining := Z.max (deadline - now) 0 in
      if (remaining <=? 0)%Z then
        Some (Raise (SutFault ("Did not observe signal " ++ signal_name ++ " before timeout")), w)
      else
        match receive (bus signal_def) (Z.min remaining 100) w with
        | None => None
        | Some (Raise (CanTimeoutError _), w) => get_loop fuel' signal_name signal_def deadline w
        | Some (Raise e, w) =>
            if is_hal_error e then
              Some (Raise (EnvironmentFault ("HAL failure while reading " ++ signal_name
                                             ++ ": " ++ str_exn e) (Some e)), w)
            else Some (Raise e, w)
        | Some (Ok message, w) =>
            if negb (Z.eqb (msg_can_id message) (can_id signal_def)) then
              get_loop fuel' signal_name signal_def deadline w
            else Some (Ok (_decode signal_def message), w)
        end
  end.

(** [get_signal(signal_name, timeout_s)]. *)
Definition get_signal (fuel : nat) (signal_name : string) (timeout_s : Z) (w : W)
    : option (result pyval * W) :=
  match signal_catalog_get config signal_name with
  | Raise e => Some (Raise e, w)
  | Ok signal_def =>
      let '(now, w) := time_time w in
      get_loop fuel signal_name signal_def (now + timeout_s)%Z w
  end.
End Broker.

(** Dict item assignment [d[k] = v]: an existing key keeps its position. *)
Fixpoint dict_set {V} (k : string) (v : V) (d : list (string * V)) : list (string * V) :=
  match d with
  | [] => [(k, v)]
  | (k', v') :: d' => if String.eqb k k' then (k, v) :: d' else (k', v') :: dict_set k v d'
  end.

(** The elements of [set(values)], one per equivalence class of [==]. *)
Fixpoint set_of (vs : list pyval) : list pyval :=
  match vs with
  | [] => []
  | v :: vs' => if existsb (pyval_eqb v) vs' then set_of vs' else v :: set_of vs'
  end.

(** ** Assertions built on [get_signal]

    [read name] stands for [self.get_signal(name, timeout_s=timeout_s)]. *)
Section Asserts.
Variable W : Type.
Variable read : string -> W -> option (result pyval * W).

(** The dict comprehension [{name: self.get_signal(name, ...) for name in names}]. *)
Fixpoint read_all (names : list string) (acc : list (string * pyval)) (w : W)
    : option (result (list (string * pyval)) * W) :=
  match names with
  | [] => Some (Ok acc, w)
  | name :: names' =>
      match read name w with
      | None => None
      | Some (Raise e, w) => Some (Raise e, w)
      | Some (Ok v, w) => read_all names' (dict_set name v acc) w
      end
  end.

Definition assert_consistent_signals (signal_names : list string) (w : W)
    : option (result unit * W) :=
  match read_all signal_names [] w with
  | None => None
  | Some (Raise e, w) => Some (Raise e, w)
  | Some (Ok observed_values, w) =>
      let unique_values := set_of (map snd observed_values) in
      if (1 <? length unique_values)%nat then
        Some (Raise (SutFault ("Signals are inconsistent: "
                ++ String.concat ", " (map (fun nv => fst nv ++ "=" ++ py_repr (snd nv))
                                    observed_values))), w)
      else Some (Ok tt, w)
  end.

(** The healthy states [(0, "NONE", "INACTIVE", "OK")]. *)
Definition healthy_states : list pyval := [VInt 0; VStr "NONE"; VStr "INACTIVE"; VStr "OK"].

Fixpoint assert_no_faults (fault_signal_names : list string) (w : W)
    : option (result unit * W) :=
  match fault_signal_names with
  | [] => Some (Ok tt, w)
  | name :: names' =>
      match read name w with
      | None => None
      | Some (Raise e, w) => Some (Raise e, w)
      | Some (Ok observed, w) =>
          if existsb (pyval_eqb observed) healthy_states then assert_no_faults names' w
          else Some (Raise (EnvironmentFault ("Fault indicator " ++ name
                            ++ " reported unhealthy state " ++ py_repr observed) None), w)
      end
  end.
End Asserts.

(** [reads read names w vs w']: reading [names] one after another from [w]
    succeeds with the values [vs] and leaves [w']. *)
Inductive reads {W} (read : string -> W -> option (result pyval * W))
  : list string -> W -> list pyval -> W -> Prop :=
| reads_nil w : reads read [] w [] w
| reads_cons name names w v w1 vs w2 :
    read name w = Some (Ok v, w1) ->
    reads read names w1 vs w2 ->
    reads read (name :: names) w (v :: vs) w2.

(** The value read last for [n] when [names] are read as [vs]. *)
Definition last_read (n : string) (names : list string) (vs : list pyval) : option pyval :=
  fold_left (fun o p => if String.eqb n (fst p) then Some (snd p) else o)
            (combine names vs) None.

(** ** The in-memory port ([hal/implementations/mock_can_port.py])

    The world holds the number of [time.time()] calls made so far and the
    receive queue of each bus; [clock k] is the value of the [k]-th call. *)
Record MockWorld : Type := {
  ticks : nat;
  rx_queues : list (string * list CanMessage)
}.

Section MockPort.
Variable clock : nat -> Z.

Definition mock_time (w : MockWorld) : Z * MockWorld :=
  (clock (ticks w), {| ticks := S (ticks w); rx_queues := rx_queues w |}).

Definition queue_of (bus_name : string) (w : MockWorld) : list CanMessage :=
  match dict_get bus_name (rx_queues w) with Some q => q | None => [] end.

Definition set_queue (bus_name : string) (q : list CanMessage) (w : MockWorld) : MockWorld :=
  {| ticks := ticks w; rx_queues := dict_set bus_name q (rx_queues w) |}.

(** [CanMessage.with_timestamp]. *)
Definition with_timestamp (m : CanMessage) (w : MockWorld) : CanMessage * MockWorld :=
  match timestamp m with
  | None =>
      let '(t, w) := mock_time w in
      ({| msg_can_id := msg_can_id m; msg_data := msg_data m;
          is_extended_id := is_extended_id m; timestamp := Some t |}, w)
  | Some t => ({| msg_can_id := msg_can_id m; msg_data := msg_data m;
                  is_extended_id := is_extended_id m; timestamp := Some t |}, w)
  end.

(** [MockCanPort.inject_message]: append to the FIFO queue. *)
Definition inject_message (bus_name : string) (m : CanMessage) (w : MockWorld) : MockWorld :=
  let '(m', w) := with_timestamp m w in
  set_queue bus_name (queue_of bus_name w ++ [m']) w.

(** The polling loop of [MockCanPort.receive]; [time.sleep] reads no clock. *)
Fixpoint mock_receive_loop (fuel : nat) (bus_name : string) (start timeout_s : Z)
    (w : MockWorld) : option (result CanMessage * MockWorld) :=
  match fuel with
  | O => None
  | S fuel' =>
      let '(now, w) := mock_time w in
      if (now - start <? timeout_s)%Z then
        match queue_of bus_name w with
        | message :: rest => Some (Ok message, set_queue bus_name rest w)
        | [] => mock_receive_loop fuel' bus_name start timeout_s w
        end
      else Some (Raise (CanTimeoutError ("Timeout on bus " ++ bus_name)), w)
  end.

Definition mock_receive (fuel : nat) (bus_name : string) (timeout_s : Z) (w : MockWorld)
    : option (result CanMessage * MockWorld) :=
  let '(start, w) := mock_time w in
  mock_receive_loop fuel bus_name start timeout_s w.
End MockPort.

(** ** The hardware port ([hal/implementations/hil_can_port.py])

    The bus is an oracle: [bus_recv k] is what the [k]-th [bus.recv] call
    returns; [clock k] is the [k]-th [time.time()] value. *)
Inductive bus_event : Type :=
| Frame (m : CanMessage)      (* a frame was received *)
| NoFrame                     (* [recv] returned [None] *)
| BusFailure (msg : string).  (* python-can raised; not a [HalError] *)

Record HilWorld : Type := {
  clock_idx : nat;
  rx_idx : nat
}.

Section HilPort.
Variable clock : nat -> Z.
Variable bus_recv : nat -> bus_event.

Definition hil_time (w : HilWorld) : Z * HilWorld :=
  (clock (clock_idx w), {| clock_idx := S (clock_idx w); rx_idx := rx_idx w |}).

Definition hil_receive (bus_name : string) (timeout_s : Z) (w : HilWorld)
    : option (result CanMessage * HilWorld) :=
  let w' := {| clock_idx := clock_idx w; rx_idx := S (rx_idx w) |} in
  match bus_recv (rx_idx w) with
  | Frame m => Some (Ok m, w')
  | NoFrame => Some (Raise (CanTimeoutError ("Timeout on bus " ++ bus_name)), w')
  | BusFailure msg => Some (Raise (OtherError msg), w')
  end.
End HilPort.

(** The bus event is a frame with the signal's id that decodes to
    [expected]. *)
Definition matching (sd : SignalDefinition) (expected : pyval) (ev : bus_event) : bool :=
  match ev with
  | Frame m => Z.eqb (msg_can_id m) (can_id sd) && pyval_eqb (_decode sd m) expected
  | _ => false
  end.

(** What [wait_for_signal] may end with: it returned right after
    receiving the first matching frame (the last one received; none before
    it matched), or it raised [SutFault] after a clock reading past the
    deadline without receiving any matching frame.  Any other ending
    (another exception, or no ending within the fuel) is excluded. *)
Definition wait_outcome (bus_recv : nat -> bus_event) (sd : SignalDefinition) (expected : pyval)
    (clock : nat -> Z) (deadline : Z) (o : option (result unit * HilWorld)) : Prop :=
  match o with
  | Some (Ok _, w) =>
      matching sd expected (bus_recv (pred (rx_idx w))) = true /\ (0 < rx_idx w)%nat
      /\ forall j, (j < pred (rx_idx w))%nat -> matching sd expected (bus_recv j) = false
  | Some (Raise (SutFault _), w) =>
      (forall j, (j < rx_idx w)%nat -> matching sd expected (bus_recv j) = false)
      /\ (deadline < clock (pred (clock_idx w)))%Z
  | _ => False
  end.

(** ** Preconditions ([config_loader/models.py], [services/precondition_service.py]) *)

(** [PreconditionStep]; [value] is [Optional[str]], so [VStr] or [VNone]. *)
Record PreconditionStep : Type := {
  action : string;
  target : string;
  value : pyval
}.

(** [PreconditionDefinition]; the [sla] and [safety] policies are not read
    by [PreconditionService] and are left out. *)
Record PreconditionDefinition : Type := {
  pd_name : string;
  description : option string;
  steps : list PreconditionStep;
  rollback : list PreconditionStep
}.

Definition PreconditionCatalog := list (string * PreconditionDefinition).

(** [PreconditionCatalog.get]. *)
Definition precondition_catalog_get (c : PreconditionCatalog) (name : string)
    : result PreconditionDefinition :=
  match dict_get name c with
  | Some d => Ok d
  | None => Raise (KeyError ("Precondition '" ++ name ++ "' is not defined in the configuration"))
  end.

(** [PreconditionService]: the handlers act on a world [S]; [actions] is
    the [_actions] table (the built-in broker handlers and any registered
    with [register_action]).  The engine state pairs the world with the
    list of steps passed to [_dispatch] so far, in call order.  Logging has
    no effect on the outcome and is not modelled. *)
Section Engine.
Variable S : Type.
Definition handler : Type := string -> pyval -> S -> result unit * S.
Variable actions : list (string * handler).

Definition EngineState : Type := (S * list PreconditionStep)%type.

Definition _dispatch (step : PreconditionStep) (es : EngineState)
    : result unit * EngineState :=
  let '(s, dispatched) := es in
  let dispatched := (dispatched ++ [step])%list in
  match dict_get (action step) actions with
  | None => (Raise (KeyError ("Unsupported precondition action: " ++ action step)),
             (s, dispatched))
  | Some h =>
      let '(r, s) := h (target step) (value step) s in (r, (s, dispatched))
  end.

(** The [for step in definition.steps] loop inside [try]. *)
Fixpoint run_steps (ss : list PreconditionStep) (es : EngineState)
    : result unit * EngineState :=
  match ss with
  | [] => (Ok tt, es)
  | step :: ss' =>
      match _dispatch step es with
      | (Ok _, es) => run_steps ss' es
      | (Raise e, es) => (Raise e, es)
      end
  end.

(** [_rollback]: each step's failure is caught and logged. *)
Definition _rollback (definition : PreconditionDefinition) (es : EngineState) : EngineState :=
  match rollback definition with
  | [] => es
  | rb => fold_left (fun es step => snd (_dispatch step es)) rb es
  end.

Definition apply (catalog : PreconditionCatalog) (name : string) (es : EngineState)
    : result unit * EngineState :=
  match precondition_catalog_get catalog name with
  | Raise e => (Raise e, es)
  | Ok definition =>
      match run_steps (steps definition) es with
      | (Ok _, es) => (Ok tt, es)
      | (Raise exc, es) =>
          (Raise (EnvironmentFault ("Precondition " ++ name ++ " failed: " ++ str_exn exc)
                                   (Some exc)),
           _rollback definition es)
      end
  end.
(** The world left by running the handler of each step in turn, whatever
    each one returns (unknown actions leave the world unchanged). *)
Definition rollback_world (rb : list PreconditionStep) (s : S) : S :=
  fold_left (fun s step =>
               match dict_get (action step) actions with
               | Some h => snd (h (target step) (value step) s)
               | None => s
               end) rb s.
End Engine.

(** ** Sample configuration used by the examples *)
Definition door_sig : SignalDefinition :=
  {| sig_name := "DoorState"; bus := "body"; can_id := 288%Z;
     sig_payload := {| ptype := PT_enum; mapping := [("CLOSED", 0%Z); ("OPEN", 1%Z)] |} |}.

Definition speed_sig : SignalDefinition :=
  {| sig_name := "Speed"; bus := "chassis"; can_id := 512%Z;
     sig_payload := {| ptype := PT_uint; mapping := [] |} |}.

Definition temp_sig : SignalDefinition :=
  {| sig_name := "Temp"; bus := "chassis"; can_id := 513%Z;
     sig_payload := {| ptype := PT_int; mapping := [] |} |}.

(** An enum whose two keys share byte 1 (a collision the catalog admits). *)
Definition alias_sig : SignalDefinition :=
  {| sig_name := "Mode"; bus := "body"; can_id := 289%Z;
     sig_payload := {| ptype := PT_enum; mapping := [("A", 1%Z); ("B", 1%Z)] |} |}.

(** A reader serving queued values, one per call, whatever the name. *)
Definition queue_read (name : string) (q : list pyval) : option (result pyval * list pyval) :=
  match q with
  | v :: q' => Some (Ok v, q')
  | [] => Some (Raise (SutFault ("Did not observe signal " ++ name ++ " before timeout")), [])
  end.

Definition sample_signals : SignalCatalog :=
  [("DoorState", door_sig); ("Speed", speed_sig); ("Temp", temp_sig)].

Definition frame (id : Z) (b : Byte.byte) : CanMessage :=
  {| msg_can_id := id; msg_data := [b]; is_extended_id := false; timestamp := None |}.

Definition empty_world : MockWorld := {| ticks := 0; rx_queues := [] |}.

(** A clock that never advances. *)
Definition frozen_clock : nat -> Z := fun _ => 1000%Z.

(** [broker.get_signal(name, timeout_s=1.0)] on in-memory ports. *)
Definition mock_get (clock : nat -> Z) (name : string) (w : MockWorld)
    : option (result pyval * MockWorld) :=
  get_signal MockWorld (mock_time clock) (mock_receive clock 10) sample_signals 10 name 1000 w.

(** A world that records what the handlers did. *)
Definition trace_actions : list (string * handler (list string)) :=
  [("set_signal", fun t _ s => (Ok tt, (s ++ [t])%list));
   ("fail", fun t _ s => (Raise (SutFault ("boom " ++ t)), (s ++ [("half " ++ t)%string])%list))].

Definition sample_pre : PreconditionDefinition :=
  {| pd_name := "ignition_on"; description := None;
     steps := [ {| action := "set_signal"; target := "a"; value := VStr "1" |};
                {| action := "fail"; target := "b"; value := VNone |};
                {| action := "set_signal"; target := "c"; value := VStr "2" |} ];
     rollback := [ {| action := "fail"; target := "r1"; value := VNone |};
                   {| action := "unknown"; target := "r2"; value := VNone |};
                   {| action := "set_signal"; target := "r3"; value := VNone |} ] |}.

Definition sample_catalog : PreconditionCatalog := [("ignition_on", sample_pre)].

(** A bus that delivers a frame of another id, then nothing, then the
    awaited speed value 5, then nothing more. *)
Definition sample_bus (k : nat) : bus_event :=
  match k with
  | 0%nat => Frame (frame 288 Byte.x05)
  | 1%nat => NoFrame
  | 2%nat => Frame (frame 512 Byte.x05)
  | _ => NoFrame
  end.

(** The dict that [read_all] builds from the pairs [ps], starting from [acc]. *)
Definition fill_dict (ps : list (string * pyval)) (acc : list (string * pyval)) :=
  fold_left (fun acc p => dict_set (fst p) (snd p) acc) ps acc.


(** ** Sending ([InteractionBroker.set_signal], [hal/types/can_types.py]) *)

(** [TransmissionResult]. *)
Record TransmissionResult : Type := {
  success : bool;
  error_message : option string;
  tr_timestamp : Z
}.

(** An [Optional[str]] inside an f-string. *)
Definition opt_str (o : option string) : string :=
  match o with Some s => s | None => "None" end.

(** [get_port bus w] is [self._hal.get_can_port(bus)]; [send p m w] is
    [p.send(m)]. *)
Section SetSignal.
Variable W P : Type.
Variable get_port : string -> W -> result (P * W).
Variable send : P -> CanMessage -> W -> result TransmissionResult * W.
Variable config : SignalCatalog.

Definition set_signal (signal_name : string) (value : pyval) (w : W) : result unit * W :=
  match signal_catalog_get config signal_name with
  | Raise e => (Raise e, w)
  | Ok signal_def =>
      match get_port (bus signal_def) w with
      | Raise e => (Raise e, w)
      | Ok (can_port, w) =>
          match _encode signal_def value with
          | Raise e => (Raise e, w)
          | Ok message =>
              match send can_port message w with
              | (Raise exc, w) =>
                  if is_hal_error exc then
                    (Raise (EnvironmentFault ("HAL failure while sending " ++ signal_name
                                              ++ ": " ++ str_exn exc) (Some exc)), w)
                  else (Raise exc, w)
              | (Ok result, w) =>
                  if success result then (Ok tt, w)
                  else (Raise (EnvironmentFault ("Transmission on bus " ++ bus signal_def
                                 ++ " failed: " ++ opt_str (error_message result)) None), w)
              end
          end
      end
  end.
End SetSignal.

Section MockSend.
Variable clock : nat -> Z.

(** [MockCanPort.send]: the frame is acknowledged, not queued anywhere. *)
Definition mock_send (message : CanMessage) (w : MockWorld)
    : result TransmissionResult * MockWorld :=
  let '(t, w) := mock_time clock w in
  (Ok {| success := true; error_message := None; tr_timestamp := t |}, w).
End MockSend.

(** The HAL of a run: the port manager and the in-memory ports.
    [hil_open] is [HilCanPort.__init__] and [hil_send bus m] is
    [HilCanPort.send] on the bench. *)
Definition hal_get_port (hil_open : string -> list (string * string) -> result BaseCanPort)
    (bus_name : string) (w : HalManager * MockWorld)
    : result (BaseCanPort * (HalManager * MockWorld)) :=
  let '(hm, mw) := w in
  match get_can_port hil_open hm bus_name with
  | Ok (p, hm) => Ok (p, (hm, mw))
  | Raise e => Raise e
  end.

Definition hal_send (clock : nat -> Z)
    (hil_send : string -> CanMessage -> MockWorld -> result TransmissionResult * MockWorld)
    (p : BaseCanPort) (message : CanMessage) (w : HalManager * MockWorld)
    : result TransmissionResult * (HalManager * MockWorld) :=
  let '(hm, mw) := w in
  let '(r, mw) :=
    match p with
    | MockCanPort _ => mock_send clock message mw
    | HilCanPort b _ => hil_send b message mw
    end in
  (r, (hm, mw)).

(** ** Value assertions of [InteractionBroker]

    [read name] stands for [self.get_signal(name, timeout_s=timeout_s)]. *)
Section AssertValue.
Variable W : Type.
Variable read : string -> W -> option (result pyval * W).

Definition assert_signal_equal (signal_name : string) (expected_value : pyval) (w : W)
    : option (result unit * W) :=
  match read signal_name w with
  | None => None
  | Some (Raise e, w) => Some (Raise e, w)
  | Some (Ok observed, w) =>
      if negb (pyval_eqb observed expected_value) then
        Some (Raise (SutFault ("Signal " ++ signal_name ++ " expected " ++ py_repr expected_value
                               ++ " but observed " ++ py_repr observed)), w)
      else Some (Ok tt, w)
  end.

Definition assert_signal_in (signal_name : string) (expected_values : list pyval) (w : W)
    : option (result unit * W) :=
  match read signal_name w with
  | None => None
  | Some (Raise e, w) => Some (Raise e, w)
  | Some (Ok observed, w) =>
      if negb (existsb (pyval_eqb observed) expected_values) then
        Some (Raise (SutFault ("Signal " ++ signal_name ++ " expected to be in {"
                               ++ String.concat ", " (map py_repr expected_values)
                               ++ "} but was " ++ py_repr observed)), w)
      else Some (Ok tt, w)
  end.
End AssertValue.

(** An outcome with the text of a [SutFault] dropped. *)
Definition outcome_kind {W} (o : option (result unit * W)) : option (result unit * W) :=
  match o with
  | Some (Raise (SutFault _), w) => Some (Raise (SutFault ""), w)
  | o => o
  end.

(** ** The built-in precondition actions ([PreconditionService.__init__])

    The broker calls are handlers of the world [S]; timeouts are in
    milliseconds. *)
Section BuiltinActions.
Variable S : Type.
Variable broker_set_signal : string -> pyval -> S -> result unit * S.
Variable broker_wait_for_signal : string -> pyval -> Z -> S -> result unit * S.
Variable broker_assert_signal_equal : string -> pyval -> Z -> S -> result unit * S.
Variable broker_assert_signal_in : string -> list pyval -> Z -> S -> result unit * S.

Definition _set_signal : handler S := fun target value s => broker_set_signal target value s.

Definition _wait_for_signal : handler S :=
  fun target value s => broker_wait_for_signal target value 5000 s.

Definition _assert_signal : handler S :=
  fun target value s => broker_assert_signal_equal target value 5000 s.

(** A step value is [Optional[str]], never a list, tuple or set, so it is
    wrapped into [[value]]. *)
Definition _assert_signal_in : handler S :=
  fun target value s => broker_assert_signal_in target [value] 5000 s.

(** A step value is never a dict, so the guard raises before the broker
    is called. *)
Definition _assert_signal_range : handler S :=
  fun _ _ s => (Raise (ValueError "assert_signal_range requires a mapping with 'min' and 'max'"), s).

Definition builtin_actions : list (string * handler S) :=
  [("set_signal", _set_signal); ("wait_for_signal", _wait_for_signal);
   ("assert_signal", _assert_signal); ("assert_signal_in", _assert_signal_in);
   ("assert_signal_range", _assert_signal_range)].
End BuiltinActions.

(** [PreconditionService.register_action]: [self._actions[name] = handler]. *)
Definition register_action {S} (name : string) (h : handler S)
    (actions : list (string * handler S)) : list (string * handler S) :=
  dict_set name h actions.

(** ** CAN ids in the signal catalog ([SignalDefinition.parse_can_id]) *)

(** [str.lower] on ASCII text. *)
Definition ascii_lower (c : ascii) : ascii :=
  let n := nat_of_ascii c in
  if (65 <=? n)%nat && (n <=? 90)%nat then ascii_of_nat (n + 32) else c.

Fixpoint lower (s : string) : string :=
  match s with
  | EmptyString => EmptyString
  | String c s' => String (ascii_lower c) (lower s')
  end.

Definition hex_digit_value (c : ascii) : option Z :=
  let n := nat_of_ascii c in
  if (48 <=? n)%nat && (n <=? 57)%nat then Some (Z.of_nat (n - 48))
  else if (97 <=? n)%nat && (n <=? 102)%nat then Some (Z.of_nat (n - 87))
  else if (65 <=? n)%nat && (n <=? 70)%nat then Some (Z.of_nat (n - 55))
  else None.

Fixpoint parse_hex_digits (s : string) (acc : Z) : option Z :=
  match s with
  | EmptyString => Some acc
  | String c s' =>
      match hex_digit_value c with
      | Some d => parse_hex_digits s' (acc * 16 + d)%Z
      | None => None
      end
  end.

Definition parse_hex_unsigned (s : string) : option Z :=
  match s with
  | EmptyString => None
  | _ => parse_hex_digits s 0%Z
  end.

(** The digits of [int(s, 16)] after the optional [0x] / [0X] prefix. *)
Definition parse_hex_body (s : string) : option Z :=
  match s with
  | String "0" (String c r) =>
      if Ascii.eqb c "x" || Ascii.eqb c "X" then parse_hex_unsigned r else parse_hex_unsigned s
  | _ => parse_hex_unsigned s
  end.

(** [int(s, 16)] (underscore separators are not modelled). *)
Definition parse_int16 (s : string) : option Z :=
  match strip s with
  | String "-" r => option_map Z.opp (parse_hex_body r)
  | String "+" r => parse_hex_body r
  | r => parse_hex_body r
  end.

Definition parse_can_id (value : pyval) : result Z :=
  match value with
  | VStr s =>
      if String.prefix "0x" (lower s) then
        match parse_int16 s with
        | Some z => Ok z
        | None => Raise (ValueError ("invalid literal for int() with base 16: " ++ py_repr value))
        end
      else py_int value
  | _ => py_int value
  end.

(** The lower-case hexadecimal digits of [n], as [hex(n)] prints them
    after [0x]. *)
Definition hex_char (d : N) : ascii :=
  if (d <? 10)%N then ascii_of_N (48 + d) else ascii_of_N (87 + d).

Fixpoint N_hex_digits (fuel : nat) (n : N) (acc : string) : string :=
  match fuel with
  | O => acc
  | S f =>
      if (n <? 16)%N then String (hex_char n) acc
      else N_hex_digits f (n / 16)%N (String (hex_char (n mod 16)%N) acc)
  end.

Definition N_to_hex (n : N) : string :=
  N_hex_digits (S (N.to_nat (N.size n))) n EmptyString.

(** A signal entry of [signals.yml] before validation. *)
Record RawSignal : Type := {
  raw_bus : string;
  raw_can_id : pyval;
  raw_payload : PayloadDefinition
}.

(** The loop of [SignalCatalog.from_path] over [data["signals"]]: each
    entry is validated ([parse_can_id]) and stored under its own name. *)
Fixpoint signal_catalog_from (entries : list (string * RawSignal))
    (definitions : SignalCatalog) : result SignalCatalog :=
  match entries with
  | [] => Ok definitions
  | (name, payload) :: entries' =>
      let! cid := parse_can_id (raw_can_id payload) in
      signal_catalog_from entries'
        (dict_set name {| sig_name := name; bus := raw_bus payload; can_id := cid;
                          sig_payload := raw_payload payload |} definitions)
  end.

(** ** Profile merging ([config_loader/models.py]) *)

(** YAML values as [yaml.safe_load] returns them. *)
Inductive yval : Type :=
| YScalar (v : pyval)
| YList (l : list yval)
| YDict (d : list (string * yval)).

(** The new entry of [result[key]] in [_deep_merge] when the result held
    [old] and the override holds [value]: two dicts are merged, otherwise
    the override wins. *)
Fixpoint merge_value (old : option yval) (value : yval) {struct value} : yval :=
  match value with
  | YDict o =>
      match old with
      | Some (YDict b) =>
          YDict ((fix _deep_merge (result o : list (string * yval)) {struct o} :=
                    match o with
                    | [] => result
                    | (key, v) :: o' =>
                        _deep_merge (dict_set key (merge_value (dict_get key result) v) result) o'
                    end) b o)
      | _ => value
      end
  | _ => value
  end.

(** [_deep_merge(base, override)]: [result] starts as a copy of [base]. *)
Fixpoint _deep_merge (result override : list (string * yval)) : list (string * yval) :=
  match override with
  | [] => result
  | (key, value) :: override' =>
      _deep_merge (dict_set key (merge_value (dict_get key result) value) result) override'
  end.

(** [FrameworkConfig.merge] before the final validation: [profiles] holds
    the loaded profile of each path, [None] where the path does not
    exist. *)
Definition framework_merge (base_data : list (string * yval))
    (profiles : list (option (list (string * yval)))) : list (string * yval) :=
  fold_left (fun merged profile =>
               match profile with
               | None => merged
               | Some p => _deep_merge merged p
               end) profiles base_data.

(** ** Domain service state ([services/domain_service.py] [DomainService]) *)

(** [dict.pop(key)] on a present key. *)
Fixpoint dict_del {V} (k : string) (d : list (string * V)) : list (string * V) :=
  match d with
  | [] => []
  | (k', v) :: d' => if String.eqb k k' then d' else (k', v) :: dict_del k d'
  end.

(** [str.replace(a, b)] for one-character [a] and [b]. *)
Fixpoint replace_char (a b : ascii) (s : string) : string :=
  match s with
  | EmptyString => EmptyString
  | String c s' => String (if Ascii.eqb c a then b else c) (replace_char a b s')
  end.

Record DomainState : Type := {
  captures : list (string * Z);
  backend_commands : list (string * string);
  dtc_store : list (string * list string)
}.

Definition domain_init : DomainState :=
  {| captures := []; backend_commands := []; dtc_store := [] |}.

Definition with_captures (c : list (string * Z)) (ds : DomainState) : DomainState :=
  {| captures := c; backend_commands := backend_commands ds; dtc_store := dtc_store ds |}.

Definition with_backend_commands (b : list (string * string)) (ds : DomainState) : DomainState :=
  {| captures := captures ds; backend_commands := b; dtc_store := dtc_store ds |}.

Definition with_dtc_store (d : list (string * list string)) (ds : DomainState) : DomainState :=
  {| captures := captures ds; backend_commands := backend_commands ds; dtc_store := d |}.

(** [command.upper().replace(" ", "_")], as both backend methods write it. *)
Definition normalize_command (command : string) : string :=
  replace_char " " "_" (upper command).

(** [self._dtc_store[ecu]] on the [defaultdict(list)]: a missing key is
    inserted with an empty list. *)
Definition dtc_lookup (ecu : string) (store : list (string * list string))
    : list string * list (string * list string) :=
  match dict_get ecu store with
  | Some codes => (codes, store)
  | None => ([], dict_set ecu [] store)
  end.

(** [repr] of a list of str. *)
Definition py_repr_list (l : list string) : string :=
  "[" ++ String.concat ", " (map (fun s => "'" ++ s ++ "'") l) ++ "]".

(** The first ECU of the store with codes, in insertion order. *)
Fixpoint first_with_codes (store : list (string * list string)) : option (string * list string) :=
  match store with
  | [] => None
  | (name, []) :: store' => first_with_codes store'
  | (name, codes) :: _ => Some (name, codes)
  end.

(** The truth value of an [Optional[str]]. *)
Definition truthy (o : option string) : bool :=
  match o with
  | Some s => negb (String.eqb s "")
  | None => false
  end.

(** The world is the domain state and the broker's world [W]; the broker
    calls are handlers of [W] (timeouts in milliseconds). *)
Section Domain.
Variable W : Type.
Variable time_time : W -> Z * W.
Variable broker_set_signal : string -> pyval -> W -> result unit * W.
Variable broker_wait_for_signal : string -> pyval -> Z -> W -> result unit * W.
Variable broker_assert_signal_equal : string -> pyval -> Z -> W -> result unit * W.

Definition DomainWorld : Type := (DomainState * W)%type.

Definition start_capture (channel : string) (st : DomainWorld) : result unit * DomainWorld :=
  let '(ds, w) := st in
  match dict_get channel (captures ds) with
  | Some _ => (Raise (EnvironmentFault ("Capture for " ++ channel ++ " already running") None), st)
  | None =>
      let '(t, w) := time_time w in
      (Ok tt, (with_captures (dict_set channel t (captures ds)) ds, w))
  end.

Definition stop_capture (channel : string) (st : DomainWorld) : result Z * DomainWorld :=
  let '(ds, w) := st in
  match dict_get channel (captures ds) with
  | None => (Raise (EnvironmentFault ("Capture for " ++ channel ++ " was not started") None), st)
  | Some start =>
      let ds := with_captures (dict_del channel (captures ds)) ds in
      let '(t, w) := time_time w in
      (Ok (t - start)%Z, (ds, w))
  end.

Definition force_backend_action (command : string) (st : DomainWorld) : result unit * DomainWorld :=
  let '(ds, w) := st in
  let normalized := normalize_command command in
  let ds := with_backend_commands (dict_set normalized "PENDING" (backend_commands ds)) ds in
  let '(r, w) := broker_set_signal "BackendCommandRequest" (VStr normalized) w in
  (r, (ds, w)).

Definition wait_backend_ack (command expected : string) (st : DomainWorld)
    : result unit * DomainWorld :=
  let '(ds, w) := st in
  let normalized := normalize_command command in
  match broker_wait_for_signal "BackendCommandAck" (VStr (upper expected)) 10000 w with
  | (Raise e, w) => (Raise e, (ds, w))
  | (Ok _, w) =>
      (Ok tt, (with_backend_commands (dict_set normalized (upper expected) (backend_commands ds)) ds, w))
  end.

Definition read_dtc (ecu : string) (st : DomainWorld) : result (list string) * DomainWorld :=
  let '(ds, w) := st in
  let '(codes, store) := dtc_lookup ecu (dtc_store ds) in
  (Ok codes, (with_dtc_store store ds, w)).

Definition clear_dtc (ecu : option string) (st : DomainWorld) : result unit * DomainWorld :=
  let '(ds, w) := st in
  let store :=
    match ecu with
    | Some e =>
        if truthy ecu then dict_set e [] (snd (dtc_lookup e (dtc_store ds)))
        else map (fun p => (fst p, [])) (dtc_store ds)
    | None => map (fun p => (fst p, [])) (dtc_store ds)
    end in
  let '(r, w) := broker_set_signal "ActiveDtcCount" (VInt 0) w in
  (r, (with_dtc_store store ds, w)).

Definition verify_no_active_dtc (ecu : option string) (st : DomainWorld)
    : result unit * DomainWorld :=
  let '(ds, w) := st in
  let '(fault, ds) :=
    match ecu with
    | Some e =>
        if truthy ecu then
          let '(codes, store) := dtc_lookup e (dtc_store ds) in
          (match codes with
           | [] => None
           | _ => Some (SutFault ("ECU " ++ e ++ " still reports DTCs: " ++ py_repr_list codes))
           end, with_dtc_store store ds)
        else (None, ds)
    | None => (None, ds)
    end in
  match fault with
  | Some exc => (Raise exc, (ds, w))
  | None =>
      let fault :=
        if truthy ecu then None
        else match first_with_codes (dtc_store ds) with
             | Some (name, codes) =>
                 Some (SutFault ("ECU " ++ name ++ " still reports DTCs: " ++ py_repr_list codes))
             | None => None
             end in
      match fault with
      | Some exc => (Raise exc, (ds, w))
      | None =>
          let '(r, w) := broker_assert_signal_equal "ActiveDtcCount" (VInt 0) 2000 w in
          (r, (ds, w))
      end
  end.
End Domain.

(** The DTC operations of [DomainService], for runs of several calls. *)
Inductive dtc_op : Type :=
| ReadDtc (ecu : string)
| ClearDtc (ecu : option string)
| VerifyNoActiveDtc (ecu : option string).

(** Run the calls one after the other; a call that raises does not stop
    the library, whose state persists across test cases. *)
Fixpoint run_dtc_ops {W} (broker_set_signal : string -> pyval -> W -> result unit * W)
    (broker_assert_signal_equal : string -> pyval -> Z -> W -> result unit * W)
    (ops : list dtc_op) (st : DomainWorld W) : DomainWorld W :=
  match ops with
  | [] => st
  | op :: ops' =>
      let st :=
        match op with
        | ReadDtc e => snd (read_dtc W e st)
        | ClearDtc e => snd (clear_dtc W broker_set_signal e st)
        | VerifyNoActiveDtc e => snd (verify_no_active_dtc W broker_assert_signal_equal e st)
        end in
      run_dtc_ops broker_set_signal broker_assert_signal_equal ops' st
  end.

(** ** Keyword dispatch ([keywords/__init__.py] [ValidationFramework]) *)
Section Keywords.
Variable F : Type.

(** [{name.upper(): func for name, func in self._keywords.items()}]. *)
Definition keyword_lookup (keywords : list (string * F)) : list (string * F) :=
  fold_left (fun acc p => dict_set (upper (fst p)) (snd p) acc) keywords [].

(** [run_keyword]: the keyword's function, or the message of the
    [AttributeError] raised for an unknown name. *)
Definition run_keyword (keywords : list (string * F)) (name : string) : F + string :=
  match dict_get (upper name) (keyword_lookup keywords) with
  | Some func => inl func
  | None => inr ("Unknown keyword: " ++ name)
  end.
End Keywords.

(** [str.split(sep)] for a one-character separator. *)
Fixpoint split_on (sep : ascii) (s : string) : list string :=
  match s with
  | EmptyString => [EmptyString]
  | String c s' =>
      if Ascii.eqb c sep then EmptyString :: split_on sep s'
      else match split_on sep s' with
           | p :: ps => String c p :: ps
           | [] => [String c EmptyString]
           end
  end.

Definition contains_char (c : ascii) (s : string) : bool :=
  existsb (Ascii.eqb c) (list_ascii_of_string s).

(** [[p.strip() for p in parts if p.strip()]], with [str.strip] as [strip]
    has it. *)
Definition strip_nonempty (parts : list string) : list string :=
  map strip (filter (fun p => negb (String.eqb (strip p) "")) parts).

(** [DomainKeywords._normalize_signals]. *)
Definition _normalize_signals (signals : list string) : list string :=
  match signals with
  | [token] =>
      if contains_char "," token then strip_nonempty (split_on "," token)
      else strip_nonempty signals
  | _ => strip_nonempty signals
  end.

(** ** Samples for the further properties *)

(** The message of the [ValueError] raised by [_assert_signal_range]. *)
Definition range_msg : string := "assert_signal_range requires a mapping with 'min' and 'max'".

(** A decimal digit character. *)
Definition is_dec (c : ascii) : bool :=
  (48 <=? nat_of_ascii c)%nat && (nat_of_ascii c <=? 57)%nat.

(** Sample configuration entries and YAML documents. *)
Definition raw_door : RawSignal :=
  {| raw_bus := "body"; raw_can_id := VStr "0x120";
     raw_payload := {| ptype := PT_enum; mapping := [("CLOSED", 0%Z); ("OPEN", 1%Z)] |} |}.

Definition raw_speed : RawSignal :=
  {| raw_bus := "chassis"; raw_can_id := VInt 512;
     raw_payload := {| ptype := PT_uint; mapping := [] |} |}.

Definition raw_entries : list (string * RawSignal) :=
  [("DoorState", raw_door); ("Speed", raw_speed)].

Definition base_yaml : list (string * yval) :=
  [("mode", YScalar (VStr "sil"));
   ("timeouts", YDict [("default", YScalar (VInt 5)); ("can", YScalar (VInt 1))])].

Definition profile_yaml : list (string * yval) :=
  [("timeouts", YDict [("can", YScalar (VInt 2))]); ("logging", YDict [])].

Definition bench_yaml : list (string * yval) :=
  [("mode", YScalar (VStr "hil")); ("timeouts", YDict [("can", YScalar (VInt 3))])].

(** No ECU of a DTC store holds a code. *)
Definition no_codes (store : list (string * list string)) : Prop :=
  Forall (fun p => snd p = []) store.

(** A clock that advances by one at each reading, and sample broker
    calls for the domain service. *)
Definition tick_clock (t : Z) : Z * Z := (t, (t + 1)%Z).

Definition echo_set (name : string) (v : pyval) (w : list pyval) : result unit * list pyval :=
  (Ok tt, (w ++ [v])%list).

Definition ack_seen (name : string) (v : pyval) (t : Z) (w : list pyval)
    : result unit * list pyval :=
  if existsb (fun x => String.eqb (py_str x) "DOOR_UNLOCK") w then (Ok tt, w)
  else (Raise (SutFault "no acknowledgement"), w).

(** * Properties *)

Module Codec.

Example encode_case_insensitive :
  roundtrip door_sig (VStr "open") = Ok (VStr "OPEN").
Proof. reflexivity. Qed.

Example encode_int_string : roundtrip speed_sig (VStr " 42 ") = Ok (VInt 42).
Proof. reflexivity. Qed.

Example encode_unknown_symbol :
  exists m, roundtrip door_sig (VStr "AJAR") = Raise (ValueError m).
Proof. eexists. reflexivity. Qed.

Lemma to_bytes1_in_range (x : Z) :
  (0 <= x <= 255)%Z -> to_bytes1 x = Ok [byte_of_Z x] /\ from_bytes1 [byte_of_Z x] = x.
Proof.
  intros Hx. unfold to_bytes1. split.
  - destruct (Z.ltb_spec x 0); [lia|]. destruct (Z.ltb_spec 255 x); [lia|]. reflexivity.
  - unfold from_bytes1, byte_of_Z.
    destruct (Byte.of_N (Z.to_N x)) as [b|] eqn:E.
    + apply Byte.to_of_N in E. rewrite E. lia.
    + apply Byte.of_N_None_iff in E. lia.
Qed.

Lemma dict_get_in {V} (d : list (string * V)) (k : string) (v : V) :
  NoDup (map fst d) -> In (k, v) d -> dict_get k d = Some v.
Proof.
  induction d as [|[k' v'] d IH]; simpl; intros Hnd Hin; [contradiction|].
  inversion Hnd as [|? ? Hnotin Hnd']; subst.
  destruct Hin as [Heq|Hin].
  - inversion Heq; subst. now rewrite String.eqb_refl.
  - destruct (String.eqb_spec k k') as [->|Hne]; [|now apply IH].
    exfalso. apply Hnotin. change k' with (fst (k', v)). now apply in_map.
Qed.

Lemma first_key_with_value_in (m : list (string * Z)) (k : string) (x : Z) :
  In (k, x) m -> exists k', first_key_with_value x m = Some k' /\ In (k', x) m.
Proof.
  induction m as [|[k1 x1] m IH]; simpl; intros Hin; [contradiction|].
  destruct (Z.eqb_spec x1 x) as [->|Hne].
  - exists k1. auto.
  - destruct Hin as [Heq|Hin]; [inversion Heq; congruence|].
    destruct (IH Hin) as (k' & H1 & H2). exists k'. auto.
Qed.

End Codec.

(** C2 (amended).  For an enum signal (its mapping has distinct keys, being
    a dict) and a mapping key [k] that is its own upper-case form and whose
    byte [x] lies in [0, 255], [decode(encode(k))] is the first mapping key
    whose byte is [x]; it is [k] itself whenever no other key has byte [x]. *)
Theorem enum_roundtrip_first_match (sd : SignalDefinition) (k : string) (x : Z) :
  ptype (sig_payload sd) = PT_enum ->
  NoDup (map fst (mapping (sig_payload sd))) ->
  In (k, x) (mapping (sig_payload sd)) ->
  upper k = k ->
  (0 <= x <= 255)%Z ->
  exists k', first_key_with_value x (mapping (sig_payload sd)) = Some k'
    /\ roundtrip sd (VStr k) = Ok (VStr k')
    /\ ((forall k2, In (k2, x) (mapping (sig_payload sd)) -> k2 = k) -> k' = k).
Proof.
  intros Ht Hnd Hin Hup Hx.
  destruct (Codec.first_key_with_value_in _ _ _ Hin) as (k' & Hf & Hin').
  exists k'. split; [exact Hf|]. split.
  - destruct (Codec.to_bytes1_in_range x Hx) as [E1 E2].
    unfold roundtrip, _encode. rewrite Ht. simpl py_str.
    rewrite Hup, (Codec.dict_get_in _ _ _ Hnd Hin). simpl. rewrite E1. simpl.
    unfold _decode; cbn [msg_data]. rewrite E2, Ht, Hf. reflexivity.
  - intros Huniq. now apply Huniq.
Qed.

Lemma enum_roundtrip_first_match_witness :
  exists k', first_key_with_value 1 (mapping (sig_payload door_sig)) = Some k'
    /\ roundtrip door_sig (VStr "OPEN") = Ok (VStr k')
    /\ ((forall k2, In (k2, 1%Z) (mapping (sig_payload door_sig)) -> k2 = "OPEN") -> k' = "OPEN").
Proof.
  apply (enum_roundtrip_first_match door_sig "OPEN" 1);
    [reflexivity | repeat constructor; simpl; intuition discriminate
    | simpl; auto | reflexivity | lia].
Defined.

(** C2 counterexample: with keys "A" and "B" both mapped to byte 1, the
    symbol "B" of the mapping decodes back to "A". *)
Lemma enum_roundtrip_collision :
  In ("B", 1%Z) (mapping (sig_payload alias_sig))
  /\ roundtrip alias_sig (VStr "B") = Ok (VStr "A")
  /\ roundtrip alias_sig (VStr "B") <> Ok (VStr "B").
Proof.
  split; [simpl; auto|]. split; [reflexivity|]. vm_compute. congruence.
Qed.

(** C3 (amended).  For a [uint] or [int] signal, encoding [v] and decoding
    the frame gives back [v] for every [v] in [0, 255]; every other [v],
    negative ones included, makes [encode] raise [OverflowError]. *)
Theorem int_roundtrip_one_byte (sd : SignalDefinition) (v : Z) :
  ptype (sig_payload sd) <> PT_enum ->
  roundtrip sd (VInt v) =
    if (0 <=? v)%Z && (v <=? 255)%Z then Ok (VInt v)
    else Raise (OverflowError (if (v <? 0)%Z then "can't convert negative int to unsigned"
                               else "int too big to convert")).
Proof.
  intros Ht. unfold roundtrip, _encode.
  destruct (ptype (sig_payload sd)) eqn:Et; [contradiction| |]; simpl;
  (destruct (Z.leb_spec 0 v); destruct (Z.leb_spec v 255); simpl;
   [ destruct (Codec.to_bytes1_in_range v ltac:(lia)) as [E1 E2]; rewrite E1; simpl;
     unfold _decode; cbn [msg_data]; rewrite E2, Et; reflexivity
   | unfold to_bytes1; destruct (Z.ltb_spec v 0); [lia|];
     destruct (Z.ltb_spec 255 v); [reflexivity|lia]
   | unfold to_bytes1; destruct (Z.ltb_spec v 0); [reflexivity|lia]
   | lia ]).
Qed.

Lemma int_roundtrip_one_byte_witness :
  roundtrip temp_sig (VInt 200) = Ok (VInt 200).
Proof. exact (int_roundtrip_one_byte temp_sig 200 ltac:(discriminate)). Defined.

(** C3 counterexample: on the signed [int] signal, -1 (in the signed
    one-byte range) is rejected by [encode], so it does not round-trip. *)
Lemma signed_int_negative_rejected :
  roundtrip temp_sig (VInt (-1)) = Raise (OverflowError "can't convert negative int to unsigned")
  /\ roundtrip temp_sig (VInt (-1)) <> Ok (VInt (-1)).
Proof. split; [reflexivity | vm_compute; congruence]. Qed.

(** ** Port factory *)

Definition hil_unavailable : string -> list (string * string) -> result BaseCanPort :=
  fun _ _ => Raise (CanError "python-can must be installed to use HilCanPort").

Example mock_mode_lowercase :
  get_can_port hil_unavailable {| hm_mode := upper "mock"; hm_config := []; hm_can_ports := [] |} "body"
  = Ok (MockCanPort "body",
        {| hm_mode := "MOCK"; hm_config := []; hm_can_ports := [("body", MockCanPort "body")] |}).
Proof. reflexivity. Qed.

(** C4 counterexample: constructing the manager with the unknown mode
    "FOO" succeeds; the failure only comes with [get_can_port]. *)
Lemma unknown_mode_constructs :
  HalManager_init "FOO" [] = Ok {| hm_mode := "FOO"; hm_config := []; hm_can_ports := [] |}
  /\ get_can_port hil_unavailable {| hm_mode := "FOO"; hm_config := []; hm_can_ports := [] |} "body"
     = Raise (CanError "Unsupported execution mode: FOO").
Proof. split; reflexivity. Qed.

(** C4 (amended).  Construction never fails, whatever the mode; when the
    upper-cased mode is none of HIL, MOCK and SIL, every [get_can_port]
    call on the constructed manager raises [CanError] naming the mode. *)
Theorem unknown_mode_fails_per_call hil_open (mode : string) config :
  upper mode <> "HIL" -> upper mode <> "MOCK" -> upper mode <> "SIL" ->
  exists hm, HalManager_init mode config = Ok hm
    /\ forall bus_name, get_can_port hil_open hm bus_name
                        = Raise (CanError ("Unsupported execution mode: " ++ upper mode)).
Proof.
  intros H1 H2 H3. eexists. split; [reflexivity|]. intros bus_name.
  unfold get_can_port. simpl.
  apply String.eqb_neq in H1, H2, H3. rewrite H1, H2, H3. reflexivity.
Qed.

Lemma unknown_mode_fails_per_call_witness :
  exists hm, HalManager_init "foo" [] = Ok hm
    /\ forall bus_name, get_can_port hil_unavailable hm bus_name
                        = Raise (CanError ("Unsupported execution mode: " ++ upper "foo")).
Proof.
  apply unknown_mode_fails_per_call; vm_compute; congruence.
Defined.

(** ** Precondition engine *)

Module Engine.

Lemma dispatch_log {S} (actions : list (string * handler S)) step s log :
  snd (snd (_dispatch S actions step (s, log))) = (log ++ [step])%list.
Proof.
  unfold _dispatch. destruct (dict_get (action step) actions) as [h|]; [|reflexivity].
  destruct (h (target step) (value step) s). reflexivity.
Qed.

Lemma dispatch_world {S} (actions : list (string * handler S)) step s log :
  fst (snd (_dispatch S actions step (s, log)))
  = match dict_get (action step) actions with
    | Some h => snd (h (target step) (value step) s)
    | None => s
    end.
Proof.
  unfold _dispatch. destruct (dict_get (action step) actions) as [h|]; [|reflexivity].
  destruct (h (target step) (value step) s). reflexivity.
Qed.

Lemma rollback_fold {S} (actions : list (string * handler S)) rb s log :
  fold_left (fun es step => snd (_dispatch S actions step es)) rb (s, log)
  = (rollback_world S actions rb s, (log ++ rb)%list).
Proof.
  revert s log. unfold rollback_world.
  induction rb as [|step rb IH]; intros s log; cbn [fold_left].
  - now rewrite app_nil_r.
  - destruct (snd (_dispatch S actions step (s, log))) as [s' log'] eqn:E.
    rewrite IH.
    pose proof (dispatch_log actions step s log) as Hl.
    pose proof (dispatch_world actions step s log) as Hw.
    rewrite E in Hl, Hw. simpl in Hl, Hw. subst.
    now rewrite <- app_assoc.
Qed.

Lemma rollback_spec {S} (actions : list (string * handler S)) d s log :
  _rollback S actions d (s, log)
  = (rollback_world S actions (rollback d) s, (log ++ rollback d)%list).
Proof.
  unfold _rollback. destruct (rollback d) as [|step rb] eqn:E.
  - unfold rollback_world. simpl. now rewrite app_nil_r.
  - rewrite <- E. apply rollback_fold.
Qed.


Example apply_sample :
  fst (snd (apply (list string) trace_actions sample_catalog "ignition_on" ([], [])))
  = ["a"; "half b"; "half r1"; "r3"].
Proof. reflexivity. Qed.

End Engine.

(** C1.  For a precondition of three steps whose first handler succeeds
    and whose second handler raises [e]: the world the second handler ran
    on is the one left by the first (step 1's effects are kept), the third
    step is never dispatched, the rollback steps are all dispatched after
    it in their declared order, each handler acting on the world the
    previous one left, and [apply] raises an [EnvironmentFault] whose
    message starts with "Precondition <name> failed". *)
Theorem apply_second_of_three_fails {S} (actions : list (string * handler S))
    catalog name d st1 st2 st3 h1 h2 s0 s1 s2 e log0 :
  precondition_catalog_get catalog name = Ok d ->
  steps d = [st1; st2; st3] ->
  dict_get (action st1) actions = Some h1 ->
  h1 (target st1) (value st1) s0 = (Ok tt, s1) ->
  dict_get (action st2) actions = Some h2 ->
  h2 (target st2) (value st2) s1 = (Raise e, s2) ->
  apply S actions catalog name (s0, log0)
  = (Raise (EnvironmentFault ("Precondition " ++ name ++ " failed: " ++ str_exn e) (Some e)),
     (rollback_world S actions (rollback d) s2, (log0 ++ [st1; st2] ++ rollback d)%list)).
Proof.
  intros Hget Hsteps Ha1 Hh1 Ha2 Hh2.
  unfold apply. rewrite Hget, Hsteps. cbn [run_steps].
  unfold _dispatch at 1. rewrite Ha1, Hh1.
  unfold _dispatch at 1. rewrite Ha2, Hh2.
  rewrite Engine.rollback_spec. now rewrite <- !app_assoc.
Qed.

Lemma apply_second_of_three_fails_witness :
  apply (list string) trace_actions sample_catalog "ignition_on" ([], [])
  = (Raise (EnvironmentFault ("Precondition " ++ "ignition_on" ++ " failed: "
                              ++ str_exn (SutFault "boom b")) (Some (SutFault "boom b"))),
     (rollback_world (list string) trace_actions (rollback sample_pre) ["a"; "half b"],
      ([] ++ [ {| action := "set_signal"; target := "a"; value := VStr "1" |};
               {| action := "fail"; target := "b"; value := VNone |} ]
          ++ rollback sample_pre)%list)).
Proof.
  apply (apply_second_of_three_fails trace_actions sample_catalog "ignition_on"
           sample_pre
           {| action := "set_signal"; target := "a"; value := VStr "1" |}
           {| action := "fail"; target := "b"; value := VNone |}
           {| action := "set_signal"; target := "c"; value := VStr "2" |}
           (fun t _ s => (Ok tt, (s ++ [t])%list))
           (fun t _ s => (Raise (SutFault ("boom " ++ t)), (s ++ [("half " ++ t)%string])%list))
           [] ["a"] ["a"; "half b"]);
  reflexivity.
Defined.

(** C5.  Whenever the forward pass raises [e], every rollback step is
    dispatched in order and each handler runs on the world the previous one
    left, whatever the earlier rollback handlers returned (their exceptions
    are caught); the exception [apply] raises is an [EnvironmentFault]
    naming the precondition whose cause is [e] and whose message renders
    [e], independently of any rollback failure. *)
Theorem apply_rollback_best_effort {S} (actions : list (string * handler S))
    catalog name d es e s' log' :
  precondition_catalog_get catalog name = Ok d ->
  run_steps S actions (steps d) es = (Raise e, (s', log')) ->
  apply S actions catalog name es
  = (Raise (EnvironmentFault ("Precondition " ++ name ++ " failed: " ++ str_exn e) (Some e)),
     (rollback_world S actions (rollback d) s', (log' ++ rollback d)%list)).
Proof.
  intros Hget Hrun. unfold apply. rewrite Hget, Hrun.
  now rewrite Engine.rollback_spec.
Qed.

Lemma apply_rollback_best_effort_witness :
  apply (list string) trace_actions sample_catalog "ignition_on" ([], [])
  = (Raise (EnvironmentFault ("Precondition " ++ "ignition_on" ++ " failed: "
                              ++ str_exn (SutFault "boom b")) (Some (SutFault "boom b"))),
     (rollback_world (list string) trace_actions (rollback sample_pre)
                     ["a"; "half b"],
      ([ {| action := "set_signal"; target := "a"; value := VStr "1" |};
         {| action := "fail"; target := "b"; value := VNone |} ]
       ++ rollback sample_pre)%list)).
Proof.
  apply (apply_rollback_best_effort trace_actions sample_catalog "ignition_on"
           sample_pre ([], [])); reflexivity.
Defined.

(** C10.  For a name the catalog does not hold, [apply] raises the
    catalog's [KeyError] naming the precondition, not an
    [EnvironmentFault], and leaves the engine state as it was: no step and
    no rollback step is dispatched and the world is unchanged. *)
Theorem apply_unknown_precondition {S} (actions : list (string * handler S))
    catalog name es :
  dict_get name catalog = None ->
  apply S actions catalog name es
  = (Raise (KeyError ("Precondition '" ++ name ++ "' is not defined in the configuration")), es).
Proof.
  intros Hnone. unfold apply, precondition_catalog_get. now rewrite Hnone.
Qed.

Lemma apply_unknown_precondition_witness :
  apply (list string) trace_actions sample_catalog "doors_locked" (["x"], [])
  = (Raise (KeyError ("Precondition '" ++ "doors_locked"
                      ++ "' is not defined in the configuration")), (["x"], [])).
Proof. apply apply_unknown_precondition. reflexivity. Defined.

(** ** Assertions over reads *)

Module AssertFacts.

Lemma pyval_eqb_eq (a b : pyval) : pyval_eqb a b = true <-> a = b.
Proof.
  destruct a, b; simpl; split; intros H; try discriminate; try congruence.
  - apply Z.eqb_eq in H. now subst.
  - inversion H. apply Z.eqb_refl.
  - apply String.eqb_eq in H. now subst.
  - inversion H. apply String.eqb_refl.
Qed.

Lemma healthy_iff (v : pyval) :
  existsb (pyval_eqb v) healthy_states = true
  <-> In v [VInt 0; VStr "NONE"; VStr "INACTIVE"; VStr "OK"].
Proof.
  unfold healthy_states. rewrite existsb_exists. split.
  - intros (x & Hin & Heq). apply pyval_eqb_eq in Heq. now subst.
  - intros Hin. exists v. split; [exact Hin|]. now apply pyval_eqb_eq.
Qed.

Lemma reads_app {W} (read : string -> W -> option (result pyval * W)) pre w vs w1 rest :
  reads read pre w vs w1 ->
  Forall (fun v => In v [VInt 0; VStr "NONE"; VStr "INACTIVE"; VStr "OK"]) vs ->
  assert_no_faults W read (pre ++ rest) w = assert_no_faults W read rest w1.
Proof.
  induction 1 as [w|name names w v w1 vs w2 Hr Hrs IH]; intros Hall; [reflexivity|].
  inversion Hall as [|? ? Hv Hvs]; subst.
  apply healthy_iff in Hv. cbn [assert_no_faults app]. rewrite Hr, Hv. now apply IH.
Qed.

End AssertFacts.

(** C9.  [assert_no_faults] reads the fault signals in the given order:
    when every value read is one of 0, "NONE", "INACTIVE", "OK" it returns
    normally; the first name whose value is anything else makes it raise an
    [EnvironmentFault] naming that signal and the value, right after that
    read, without reading the names that follow. *)
Theorem assert_no_faults_healthy_set {W} (read : string -> W -> option (result pyval * W)) :
  (forall names w vs w',
     reads read names w vs w' ->
     Forall (fun v => In v [VInt 0; VStr "NONE"; VStr "INACTIVE"; VStr "OK"]) vs ->
     assert_no_faults W read names w = Some (Ok tt, w'))
  /\ (forall pre name post w vs w1 v w2,
     reads read pre w vs w1 ->
     Forall (fun v => In v [VInt 0; VStr "NONE"; VStr "INACTIVE"; VStr "OK"]) vs ->
     read name w1 = Some (Ok v, w2) ->
     ~ In v [VInt 0; VStr "NONE"; VStr "INACTIVE"; VStr "OK"] ->
     assert_no_faults W read (pre ++ name :: post) w
     = Some (Raise (EnvironmentFault ("Fault indicator " ++ name
                      ++ " reported unhealthy state " ++ py_repr v) None), w2)).
Proof.
  split.
  - intros names w vs w' Hr Hall.
    rewrite <- (app_nil_r names). rewrite (AssertFacts.reads_app read names w vs w' [] Hr Hall).
    reflexivity.
  - intros pre name post w vs w1 v w2 Hr Hall Hread Hbad.
    rewrite (AssertFacts.reads_app read pre w vs w1 _ Hr Hall). cbn [assert_no_faults]. rewrite Hread.
    destruct (existsb (pyval_eqb v) healthy_states) eqn:E; [|reflexivity].
    apply AssertFacts.healthy_iff in E. contradiction.
Qed.

Lemma assert_no_faults_healthy_set_witness :
  assert_no_faults (list pyval) queue_read (["a"] ++ "b" :: ["c"]) [VInt 0; VStr "FAULT"; VInt 0]
  = Some (Raise (EnvironmentFault ("Fault indicator " ++ "b" ++ " reported unhealthy state "
                                   ++ py_repr (VStr "FAULT")) None), [VInt 0]).
Proof.
  apply (proj2 (assert_no_faults_healthy_set queue_read) ["a"] "b" ["c"]
           [VInt 0; VStr "FAULT"; VInt 0] [VInt 0] [VStr "FAULT"; VInt 0]);
    [ repeat econstructor | repeat constructor; simpl; auto | reflexivity
    | simpl; intuition discriminate ].
Defined.

Module DictFacts.

Lemma dict_get_set {V} (n k : string) (v : V) d :
  dict_get n (dict_set k v d) = if String.eqb n k then Some v else dict_get n d.
Proof.
  induction d as [|[k' v'] d IH]; simpl.
  - destruct (String.eqb n k); reflexivity.
  - destruct (String.eqb_spec k k') as [->|Hne]; simpl.
    + destruct (String.eqb n k'); reflexivity.
    + rewrite IH. destruct (String.eqb_spec n k) as [->|]; [|reflexivity].
      apply String.eqb_neq in Hne. now rewrite Hne.
Qed.

Lemma in_keys_set {V} (k k' : string) (v : V) d :
  In k' (map fst (dict_set k v d)) <-> k' = k \/ In k' (map fst d).
Proof.
  induction d as [|[k1 v1] d IH]; simpl.
  - intuition.
  - destruct (String.eqb_spec k k1) as [->|Hne]; simpl; rewrite ?IH; intuition.
Qed.

Lemma keys_nodup_set {V} (k : string) (v : V) d :
  NoDup (map fst d) -> NoDup (map fst (dict_set k v d)).
Proof.
  induction d as [|[k1 v1] d IH]; simpl; intros Hnd.
  - repeat constructor; simpl; intuition.
  - inversion Hnd as [|? ? Hnotin Hnd']; subst.
    destruct (String.eqb_spec k k1) as [->|Hne]; simpl; [now constructor|].
    constructor; [|now apply IH].
    rewrite in_keys_set. intuition.
Qed.

Lemma dict_get_some_in {V} (n : string) (v : V) d :
  dict_get n d = Some v -> In (n, v) d.
Proof.
  induction d as [|[k1 v1] d IH]; simpl; [discriminate|].
  destruct (String.eqb_spec n k1) as [->|]; [intros H; inversion H; auto|].
  intros H. right. now apply IH.
Qed.

Lemma values_iff {V} (d : list (string * V)) (v : V) :
  NoDup (map fst d) -> In v (map snd d) <-> exists n, dict_get n d = Some v.
Proof.
  intros Hnd. split.
  - intros Hin. apply in_map_iff in Hin. destruct Hin as ([n v'] & Hv & Hin).
    simpl in Hv. subst. exists n. now apply Codec.dict_get_in.
  - intros (n & Hg). apply dict_get_some_in in Hg.
    change v with (snd (n, v)). now apply in_map.
Qed.

Lemma fill_nodup ps acc : NoDup (map fst acc) -> NoDup (map fst (fill_dict ps acc)).
Proof.
  unfold fill_dict. revert acc. induction ps as [|p ps IH]; simpl; intros acc H; [exact H|].
  apply IH. now apply keys_nodup_set.
Qed.

Lemma dict_get_fill n ps acc :
  dict_get n (fill_dict ps acc)
  = fold_left (fun o p => if String.eqb n (fst p) then Some (snd p) else o) ps (dict_get n acc).
Proof.
  unfold fill_dict. revert acc. induction ps as [|p ps IH]; simpl; intros acc; [reflexivity|].
  rewrite IH, dict_get_set. reflexivity.
Qed.

End DictFacts.

Module SetFacts.

Lemma set_of_in (x : pyval) l : In x (set_of l) <-> In x l.
Proof.
  induction l as [|v l IH]; simpl; [tauto|].
  destruct (existsb (pyval_eqb v) l) eqn:E; simpl; rewrite IH; [|tauto].
  apply existsb_exists in E. destruct E as (y & Hy & Heq).
  apply AssertFacts.pyval_eqb_eq in Heq. subst. intuition congruence.
Qed.

Lemma set_of_nodup l : NoDup (set_of l).
Proof.
  induction l as [|v l IH]; simpl; [constructor|].
  destruct (existsb (pyval_eqb v) l) eqn:E; [exact IH|].
  constructor; [|exact IH]. rewrite set_of_in. intros Hin.
  assert (existsb (pyval_eqb v) l = true) as E'.
  { apply existsb_exists. exists v. split; [exact Hin|]. now apply AssertFacts.pyval_eqb_eq. }
  congruence.
Qed.

Lemma set_of_many l :
  (1 < length (set_of l))%nat <-> exists a b, In a l /\ In b l /\ a <> b.
Proof.
  split.
  - pose proof (set_of_nodup l) as Hnd.
    pose proof (fun x => proj1 (set_of_in x l)) as Hin.
    destruct (set_of l) as [|a [|b r]]; simpl; intros Hlen; try lia.
    inversion Hnd as [|? ? Hna]; subst.
    exists a, b. split; [apply Hin; simpl; auto|]. split; [apply Hin; simpl; auto|].
    intros ->. apply Hna. simpl. auto.
  - intros (a & b & Ha & Hb & Hne).
    apply set_of_in in Ha, Hb.
    destruct (set_of l) as [|x [|y r]]; simpl in *; try lia; intuition congruence.
Qed.

End SetFacts.

Lemma dict_set_fresh {V} (k : string) (v : V) d :
  ~ In k (map fst d) -> dict_set k v d = (d ++ [(k, v)])%list.
Proof.
  induction d as [|[k1 v1] d IH]; simpl; intros Hn; [reflexivity|].
  destruct (String.eqb_spec k k1) as [->|]; [exfalso; auto|].
  rewrite IH; auto.
Qed.

Lemma fill_fresh ps acc :
  NoDup (map fst (acc ++ ps)) -> fill_dict ps acc = (acc ++ ps)%list.
Proof.
  unfold fill_dict. revert acc.
  induction ps as [|[k v] ps IH]; simpl; intros acc Hnd; [now rewrite app_nil_r|].
  rewrite map_app in Hnd. simpl in Hnd.
  rewrite dict_set_fresh.
  - rewrite IH; [now rewrite <- app_assoc|].
    rewrite <- app_assoc. rewrite map_app. exact Hnd.
  - intros Hin. apply (NoDup_remove_2 _ _ _ Hnd). apply in_or_app. now left.
Qed.

Lemma combine_fst_snd (names : list string) (vs : list pyval) :
  length names = length vs ->
  map fst (combine names vs) = names /\ map snd (combine names vs) = vs.
Proof.
  revert vs. induction names as [|n names IH]; intros [|v vs]; simpl; intros Hl;
    try discriminate; [auto|].
  destruct (IH vs ltac:(lia)) as [H1 H2]. now rewrite H1, H2.
Qed.

Lemma reads_length {W} (read : string -> W -> option (result pyval * W)) names w vs w' :
  reads read names w vs w' -> length names = length vs.
Proof. induction 1; simpl; congruence. Qed.

Lemma read_all_reads {W} (read : string -> W -> option (result pyval * W)) names w vs w' :
  reads read names w vs w' ->
  forall acc, read_all W read names acc w = Some (Ok (fill_dict (combine names vs) acc), w').
Proof.
  induction 1 as [w|name names w v w1 vs w2 Hr Hrs IH]; intros acc; [reflexivity|].
  simpl. rewrite Hr. apply IH.
Qed.

(** C8 (amended).  When every read succeeds, [assert_consistent_signals]
    returns normally or raises [SutFault], and it raises exactly when two
    names have different values in the name-to-value dict, which holds for
    each name the value read last for it (a repeated name keeps only its
    last reading). *)
Theorem assert_consistent_last_values {W} (read : string -> W -> option (result pyval * W))
    names w vs w' :
  reads read names w vs w' ->
  exists r, assert_consistent_signals W read names w = Some (r, w')
    /\ (r = Ok tt \/ exists m, r = Raise (SutFault m))
    /\ ((exists m, r = Raise (SutFault m))
        <-> exists n1 n2 v1 v2, last_read n1 names vs = Some v1
                               /\ last_read n2 names vs = Some v2 /\ v1 <> v2)
    /\ (NoDup names ->
        ((exists m, r = Raise (SutFault m)) <-> exists v1 v2, In v1 vs /\ In v2 vs /\ v1 <> v2)).
Proof.
  intros Hr.
  destruct (combine_fst_snd names vs (reads_length read names w vs w' Hr)) as [Hfst Hsnd]. unfold assert_consistent_signals. rewrite (read_all_reads read names w vs w' Hr []).
  set (observed := fill_dict (combine names vs) []).
  assert (Hnd : NoDup (map fst observed)) by (apply DictFacts.fill_nodup; constructor).
  assert (Hlast : forall n, dict_get n observed = last_read n names vs)
    by (intros n; unfold observed; now rewrite DictFacts.dict_get_fill).
  assert (Hiff : (1 < length (set_of (map snd observed)))%nat
                 <-> exists n1 n2 v1 v2, last_read n1 names vs = Some v1
                                        /\ last_read n2 names vs = Some v2 /\ v1 <> v2).
  { rewrite SetFacts.set_of_many. split.
    - intros (a & b & Ha & Hb & Hne).
      apply (DictFacts.values_iff _ _ Hnd) in Ha, Hb.
      destruct Ha as [n1 Ha], Hb as [n2 Hb]. rewrite Hlast in Ha, Hb.
      exists n1, n2, a, b. auto.
    - intros (n1 & n2 & v1 & v2 & H1 & H2 & Hne). rewrite <- Hlast in H1, H2.
      exists v1, v2. split; [apply (DictFacts.values_iff _ _ Hnd); eauto|].
      split; [apply (DictFacts.values_iff _ _ Hnd); eauto|exact Hne]. }
  assert (Hdist : NoDup names -> map snd observed = vs).
  { intros Hn. unfold observed. rewrite fill_fresh; [exact Hsnd|]. simpl. now rewrite Hfst. }
  destruct (Nat.ltb_spec 1 (length (set_of (map snd observed)))) as [Hlt|Hge].
  - eexists. split; [reflexivity|]. split; [right; eauto|].
    split; [split; [intros _; now apply Hiff|eauto]|].
    intros Hn. rewrite (Hdist Hn) in Hlt. apply SetFacts.set_of_many in Hlt. split; eauto.
  - eexists. split; [reflexivity|]. split; [left; reflexivity|].
    split; [split; [intros (m & Hm); discriminate|]|].
    + intros Hex. apply Hiff in Hex. lia.
    + intros Hn. rewrite (Hdist Hn) in Hge. split; [intros (m & Hm); discriminate|].
      intros Hex. apply SetFacts.set_of_many in Hex. lia.
Qed.


Example get_signal_reads_queue :
  option_map fst (mock_get frozen_clock "Speed"
         (inject_message frozen_clock "chassis" (frame 512 Byte.x2a) empty_world))
  = Some (Ok (VInt 42)).
Proof. reflexivity. Qed.

Example get_signal_times_out :
  exists m w, mock_get (fun k => 50 * Z.of_nat k)%Z "Speed" empty_world
              = Some (Raise (SutFault m), w).
Proof. do 2 eexists. reflexivity. Qed.

(** C8 counterexample: reading "Speed" twice yields 1 and then 2, two
    different decoded values, yet [assert_consistent_signals] returns
    normally, since the dict keeps only the second reading. *)
Lemma consistent_repeated_name :
  exists w_end,
    reads (mock_get frozen_clock) ["Speed"; "Speed"]
      (inject_message frozen_clock "chassis" (frame 512 Byte.x02)
        (inject_message frozen_clock "chassis" (frame 512 Byte.x01) empty_world))
      [VInt 1; VInt 2] w_end
    /\ assert_consistent_signals MockWorld (mock_get frozen_clock) ["Speed"; "Speed"]
      (inject_message frozen_clock "chassis" (frame 512 Byte.x02)
        (inject_message frozen_clock "chassis" (frame 512 Byte.x01) empty_world))
       = Some (Ok tt, w_end).
Proof.
  eexists. split.
  - eapply reads_cons; [reflexivity|].
    eapply reads_cons; [reflexivity|].
    apply reads_nil.
  - reflexivity.
Qed.

Lemma assert_consistent_last_values_witness :
  exists r, assert_consistent_signals (list pyval) queue_read ["a"; "b"] [VInt 1; VInt 2]
            = Some (r, [])
    /\ (r = Ok tt \/ exists m, r = Raise (SutFault m))
    /\ ((exists m, r = Raise (SutFault m))
        <-> exists n1 n2 v1 v2, last_read n1 ["a"; "b"] [VInt 1; VInt 2] = Some v1
                               /\ last_read n2 ["a"; "b"] [VInt 1; VInt 2] = Some v2 /\ v1 <> v2)
    /\ (NoDup ["a"; "b"] ->
        ((exists m, r = Raise (SutFault m))
         <-> exists v1 v2, In v1 [VInt 1; VInt 2] /\ In v2 [VInt 1; VInt 2] /\ v1 <> v2)).
Proof.
  apply assert_consistent_last_values.
  eapply reads_cons; [reflexivity|]. eapply reads_cons; [reflexivity|]. apply reads_nil.
Defined.

(** ** Reading from the in-memory port *)

Module MockFacts.

Lemma queue_of_set_same b q w : queue_of b (set_queue b q w) = q.
Proof. unfold queue_of, set_queue. simpl. rewrite DictFacts.dict_get_set, String.eqb_refl. reflexivity. Qed.

Lemma mock_receive_pop clock r b timeout w m rest :
  queue_of b w = m :: rest ->
  (clock (S (ticks w)) - clock (ticks w) < timeout)%Z ->
  mock_receive clock (S r) b timeout w
  = Some (Ok m, set_queue b rest {| ticks := S (S (ticks w)); rx_queues := rx_queues w |}).
Proof.
  intros Hq Hlt. unfold mock_receive, mock_time. cbn [mock_receive_loop mock_time ticks rx_queues].
  destruct (Z.ltb_spec (clock (S (ticks w)) - clock (ticks w)) timeout); [|lia].
  unfold queue_of in *. simpl. rewrite Hq. reflexivity.
Qed.

Lemma get_signal_two_frames (clock : nat -> Z) catalog name sd fa fb w T D fuel rfuel :
  signal_catalog_get catalog name = Ok sd ->
  msg_can_id fa <> can_id sd -> msg_can_id fb = can_id sd ->
  queue_of (bus sd) w = [fa; fb] ->
  (forall i, (ticks w <= i <= ticks w + 6)%nat ->
     (clock (ticks w) <= clock i <= clock (ticks w) + D)%Z) ->
  (D < 100)%Z -> (2 * D < T)%Z -> (2 <= fuel)%nat -> (1 <= rfuel)%nat ->
  exists w', get_signal MockWorld (mock_time clock) (mock_receive clock rfuel) catalog fuel name T w
             = Some (Ok (_decode sd fb), w') /\ queue_of (bus sd) w' = [].
Proof.
  intros Hget Ha Hb Hq Hclk HD HT Hf Hr.
  destruct fuel as [|[|fuel]]; [lia|lia|]. destruct rfuel as [|rfuel]; [lia|].
  pose proof (Hclk (ticks w) ltac:(lia)) as C0.
  pose proof (Hclk (S (ticks w)) ltac:(lia)) as C1.
  pose proof (Hclk (S (S (ticks w))) ltac:(lia)) as C2.
  pose proof (Hclk (S (S (S (ticks w)))) ltac:(lia)) as C3.
  pose proof (Hclk (S (S (S (S (ticks w))))) ltac:(lia)) as C4.
  pose proof (Hclk (S (S (S (S (S (ticks w)))))) ltac:(lia)) as C5.
  pose proof (Hclk (S (S (S (S (S (S (ticks w))))))) ltac:(lia)) as C6.
  unfold get_signal. rewrite Hget. cbn [get_loop mock_time ticks rx_queues].
  destruct (Z.leb_spec (Z.max (clock (ticks w) + T - clock (S (ticks w))) 0) 0); [lia|].
  rewrite (mock_receive_pop clock rfuel (bus sd) _ _ fa [fb]); cbn [ticks rx_queues];
    [| exact Hq | lia].
  apply Z.eqb_neq in Ha. rewrite Ha. cbn [negb].
  cbn [ticks set_queue].
  destruct (Z.leb_spec (Z.max (clock (ticks w) + T - clock (S (S (S (S (ticks w)))))) 0) 0);
    [lia|].
  rewrite (mock_receive_pop clock rfuel (bus sd) _ _ fb []); cbn [ticks rx_queues];
    [| apply queue_of_set_same | lia].
  rewrite Hb, Z.eqb_refl. cbn [negb].
  eexists. split; [reflexivity|]. apply queue_of_set_same.
Qed.

Lemma with_timestamp_fields clock m w :
  msg_can_id (fst (with_timestamp clock m w)) = msg_can_id m
  /\ msg_data (fst (with_timestamp clock m w)) = msg_data m
  /\ rx_queues (snd (with_timestamp clock m w)) = rx_queues w.
Proof. unfold with_timestamp. destruct (timestamp m); repeat split. Qed.

Lemma inject_queue clock b m w :
  queue_of b (inject_message clock b m w)
  = (queue_of b w ++ [fst (with_timestamp clock m w)])%list.
Proof.
  destruct (with_timestamp_fields clock m w) as (_ & _ & Hq).
  unfold inject_message. destruct (with_timestamp clock m w) as [m' w'] eqn:E.
  simpl in Hq |- *. rewrite queue_of_set_same. unfold queue_of. now rewrite Hq.
Qed.

End MockFacts.

(** C7.  Inject a frame [fa] whose id is not the signal's and then a frame
    [fb] with the signal's id into the (empty) queue of the signal's bus;
    as long as the call's clock readings stay within [D] of the first one,
    with [D] below the 100 ms polling bound and [2 * D] below the timeout,
    [get_signal] returns the value decoded from [fb], and the queue is empty
    afterwards: [fa] was consumed and dropped, not put back. *)
Theorem get_signal_skips_other_id (clock : nat -> Z) catalog name sd fa fb w0 T D fuel rfuel :
  signal_catalog_get catalog name = Ok sd ->
  msg_can_id fa <> can_id sd -> msg_can_id fb = can_id sd ->
  queue_of (bus sd) w0 = [] ->
  (forall i,
     (ticks (inject_message clock (bus sd) fb (inject_message clock (bus sd) fa w0)) <= i
      <= ticks (inject_message clock (bus sd) fb (inject_message clock (bus sd) fa w0)) + 6)%nat ->
     (clock (ticks (inject_message clock (bus sd) fb (inject_message clock (bus sd) fa w0)))
        <= clock i
        <= clock (ticks (inject_message clock (bus sd) fb (inject_message clock (bus sd) fa w0)))
           + D)%Z) ->
  (D < 100)%Z -> (2 * D < T)%Z -> (2 <= fuel)%nat -> (1 <= rfuel)%nat ->
  exists w', get_signal MockWorld (mock_time clock) (mock_receive clock rfuel) catalog fuel name T
               (inject_message clock (bus sd) fb (inject_message clock (bus sd) fa w0))
             = Some (Ok (_decode sd fb), w')
             /\ queue_of (bus sd) w' = [].
Proof.
  intros Hget Ha Hb Hq0 Hclk HD HT Hf Hr.
  set (w1 := inject_message clock (bus sd) fa w0).
  destruct (MockFacts.with_timestamp_fields clock fa w0) as (Ia & _ & _).
  destruct (MockFacts.with_timestamp_fields clock fb w1) as (Ib & Db & _).
  assert (Hq : queue_of (bus sd) (inject_message clock (bus sd) fb w1)
               = [fst (with_timestamp clock fa w0); fst (with_timestamp clock fb w1)]).
  { rewrite MockFacts.inject_queue. unfold w1. rewrite MockFacts.inject_queue, Hq0. reflexivity. }
  assert (Hdec : _decode sd (fst (with_timestamp clock fb w1)) = _decode sd fb)
    by (unfold _decode; now rewrite Db).
  rewrite <- Hdec.
  apply (MockFacts.get_signal_two_frames clock catalog name sd
           (fst (with_timestamp clock fa w0)) _ _ T D fuel rfuel);
    try assumption; congruence.
Qed.

Lemma get_signal_skips_other_id_witness :
  exists w', get_signal MockWorld (mock_time frozen_clock) (mock_receive frozen_clock 1)
               sample_signals 2 "Speed" 1000
               (inject_message frozen_clock (bus speed_sig) (frame 512 Byte.x07)
                 (inject_message frozen_clock (bus speed_sig) (frame 288 Byte.x01) empty_world))
             = Some (Ok (_decode speed_sig (frame 512 Byte.x07)), w')
             /\ queue_of (bus speed_sig) w' = [].
Proof.
  apply (get_signal_skips_other_id frozen_clock sample_signals "Speed" speed_sig
           (frame 288 Byte.x01) (frame 512 Byte.x07) empty_world 1000 0 2 1);
    try reflexivity; try discriminate; try lia.
  intros i _. unfold frozen_clock. lia.
Defined.

(** ** Waiting with a deadline *)

Module WaitFacts.

Lemma wait_loop_inv clock bus_recv name sd expected d P K :
  (0 < d)%Z ->
  (forall i j, (i <= j)%nat -> (clock i <= clock j)%Z) ->
  (forall k msg, bus_recv k <> BusFailure msg) ->
  (d < clock K)%Z ->
  forall fuel w,
  (forall j, (j < rx_idx w)%nat -> matching sd expected (bus_recv j) = false) ->
  (clock_idx w <= K)%nat -> (K < clock_idx w + fuel)%nat ->
  wait_outcome bus_recv sd expected clock d
    (wait_loop HilWorld (hil_time clock) (hil_receive bus_recv) fuel name sd expected (Some d) P w).
Proof.
  intros Hd Hmono Hnofail HK fuel. induction fuel as [|fuel IH]; intros w Hprev Hle Hlt; [lia|].
  cbn [wait_loop]. assert (Hd0 : Z.eqb d 0 = false) by (apply Z.eqb_neq; lia).
  rewrite Hd0. cbn [negb hil_time clock_idx rx_idx].
  destruct (Z.ltb_spec d (clock (clock_idx w))) as [Hexp|Hok].
  - simpl. split; [exact Hprev|exact Hexp].
  - assert (Hci : (clock_idx w < K)%nat).
    { destruct (Nat.lt_ge_cases (clock_idx w) K) as [|Hge]; [assumption|].
      specialize (Hmono _ _ Hge). lia. }
    unfold hil_receive. cbn [clock_idx rx_idx].
    destruct (bus_recv (rx_idx w)) as [m| |msg] eqn:E.
    + destruct (Z.eqb_spec (msg_can_id m) (can_id sd)) as [Hid|Hid]; cbn [negb].
      * destruct (pyval_eqb (_decode sd m) expected) eqn:Ev.
        -- simpl. rewrite E. unfold matching. rewrite Ev.
           apply Z.eqb_eq in Hid. rewrite Hid. simpl. split; [reflexivity|]. split; [lia|].
           exact Hprev.
        -- apply IH; simpl; [|lia|lia].
           intros j Hj. destruct (Nat.eq_dec j (rx_idx w)) as [->|]; [|apply Hprev; lia].
           rewrite E. unfold matching. now rewrite Ev, andb_false_r.
      * apply IH; simpl; [|lia|lia].
        intros j Hj. destruct (Nat.eq_dec j (rx_idx w)) as [->|]; [|apply Hprev; lia].
        rewrite E. unfold matching. apply Z.eqb_neq in Hid. now rewrite Hid.
    + cbn [hil_time clock_idx rx_idx].
      destruct (Z.ltb_spec d (clock (S (clock_idx w)))) as [Hexp2|Hok2].
      * simpl. split; [|exact Hexp2].
        intros j Hj. destruct (Nat.eq_dec j (rx_idx w)) as [->|]; [|apply Hprev; lia].
        now rewrite E.
      * assert (Hci2 : (S (clock_idx w) < K)%nat).
        { destruct (Nat.lt_ge_cases (S (clock_idx w)) K) as [|Hge]; [assumption|].
          specialize (Hmono _ _ Hge). lia. }
        apply IH; simpl; [|lia|lia].
        intros j Hj. destruct (Nat.eq_dec j (rx_idx w)) as [->|]; [|apply Hprev; lia].
        now rewrite E.
    + exfalso. exact (Hnofail _ _ E).
Qed.

End WaitFacts.

(** C6.  With a deadline [clock 0 + T] (the clock is positive, [T >= 0]),
    a monotone fake clock that eventually passes the deadline, and a bus
    that never fails, [wait_for_signal] ends within the fuel, either
    returning right after the first frame with the signal's id that decodes
    to the expected value (earlier frames, of other ids or other values,
    were consumed and skipped), or raising [SutFault] after reading the
    clock past the deadline, no matching frame having been received. *)
Theorem wait_for_signal_deadline (clock : nat -> Z) bus_recv catalog name sd expected T P
    fuel K :
  signal_catalog_get catalog name = Ok sd ->
  (0 < clock O)%Z -> (0 <= T)%Z ->
  (forall i j, (i <= j)%nat -> (clock i <= clock j)%Z) ->
  (forall k msg, bus_recv k <> BusFailure msg) ->
  (clock O + T < clock K)%Z -> (K < fuel)%nat ->
  wait_outcome bus_recv sd expected clock (clock O + T)
    (wait_for_signal HilWorld (hil_time clock) (hil_receive bus_recv) catalog fuel name
       expected (Some T) P {| clock_idx := 0; rx_idx := 0 |}).
Proof.
  intros Hget H0 HT Hmono Hnofail HK Hfuel.
  unfold wait_for_signal. rewrite Hget. cbn [hil_time clock_idx rx_idx].
  assert (HK1 : (1 <= K)%nat) by (destruct K; [lia|lia]).
  apply (WaitFacts.wait_loop_inv clock bus_recv name sd expected _ P K); simpl; try lia; auto.
Qed.


Lemma wait_for_signal_deadline_witness :
  wait_outcome sample_bus speed_sig (VInt 5) (fun k => 1000 + 100 * Z.of_nat k)%Z
    ((fun k => 1000 + 100 * Z.of_nat k)%Z 0%nat + 1000)
    (wait_for_signal HilWorld (hil_time (fun k => 1000 + 100 * Z.of_nat k)%Z)
       (hil_receive sample_bus) sample_signals 12 "Speed" (VInt 5) (Some 1000%Z) 100
       {| clock_idx := 0; rx_idx := 0 |}).
Proof.
  apply (wait_for_signal_deadline _ sample_bus sample_signals "Speed" speed_sig (VInt 5)
           1000 100 12 11); cbv beta; try reflexivity; try lia.
  - intros k msg. unfold sample_bus. destruct k as [|[|[|k]]]; discriminate.
Defined.

(** * Further properties *)

Module HalFacts.

Lemma dict_get_app_fresh {V} (k : string) (v : V) d :
  dict_get k d = None -> dict_get k (d ++ [(k, v)])%list = Some v.
Proof.
  induction d as [|[k1 v1] d IH]; simpl; intros H.
  - now rewrite String.eqb_refl.
  - destruct (String.eqb k k1); [discriminate|]. now apply IH.
Qed.

Lemma dict_get_none_notin {V} (k : string) (d : list (string * V)) :
  dict_get k d = None -> ~ In k (map fst d).
Proof.
  induction d as [|[k1 v1] d IH]; simpl; intros H; [tauto|].
  destruct (String.eqb_spec k k1); [discriminate|]. intros [->|Hin]; [congruence|].
  exact (IH H Hin).
Qed.

Lemma nodup_app_fresh {V} (k : string) (v : V) d :
  dict_get k d = None -> NoDup (map fst d) -> NoDup (map fst (d ++ [(k, v)])%list).
Proof.
  intros Hn Hnd. rewrite map_app. simpl. apply NoDup_app; auto.
  - repeat constructor. simpl. tauto.
  - intros x Hx [<-|[]]. exact (dict_get_none_notin _ _ Hn Hx).
Qed.

Lemma get_can_port_cases hil_open h b p h' :
  get_can_port hil_open h b = Ok (p, h') ->
  hm_mode h' = hm_mode h /\ hm_config h' = hm_config h /\
  ((dict_get b (hm_can_ports h) = Some p /\ h' = h)
   \/ (dict_get b (hm_can_ports h) = None
       /\ hm_can_ports h' = (hm_can_ports h ++ [(b, p)])%list)).
Proof.
  unfold get_can_port. destruct (dict_get b (hm_can_ports h)) as [p0|] eqn:E.
  - intros H. inversion H; subst. auto.
  - destruct (String.eqb (hm_mode h) "HIL").
    + destruct (hil_open _ _); simpl; intros H; inversion H; subst; simpl; auto.
    + destruct (String.eqb (hm_mode h) "MOCK" || String.eqb (hm_mode h) "SIL");
        simpl; intros H; inversion H; subst; simpl; auto.
Qed.

Lemma get_can_port_mock hil_open h b :
  (hm_mode h = "MOCK" \/ hm_mode h = "SIL") ->
  (forall k p, In (k, p) (hm_can_ports h) -> p = MockCanPort k) ->
  exists h', get_can_port hil_open h b = Ok (MockCanPort b, h')
    /\ (forall hil_open', get_can_port hil_open' h b = Ok (MockCanPort b, h'))
    /\ (forall k p, In (k, p) (hm_can_ports h') -> p = MockCanPort k)
    /\ hm_mode h' = hm_mode h.
Proof.
  intros Hm Hc. unfold get_can_port.
  destruct (dict_get b (hm_can_ports h)) as [p0|] eqn:E.
  - apply DictFacts.dict_get_some_in, Hc in E. subst p0. exists h. auto.
  - assert (Hb : String.eqb (hm_mode h) "HIL" = false
                 /\ (String.eqb (hm_mode h) "MOCK" || String.eqb (hm_mode h) "SIL") = true)
      by (destruct Hm as [-> | ->]; auto).
    destruct Hb as [-> ->]. cbn.
    eexists. split; [reflexivity|]. split; [reflexivity|]. split; [|reflexivity].
    simpl. intros k p Hin. apply in_app_or in Hin. destruct Hin as [Hin|[Heq|[]]].
    + exact (Hc _ _ Hin).
    + now inversion Heq.
Qed.

End HalFacts.

(** X1: a port returned by [get_can_port] is cached: asking again for the
    same bus returns it and leaves the manager as it is, without opening
    any hardware. *)
Theorem get_can_port_cached hil_open hil_open' h b p h' :
  get_can_port hil_open h b = Ok (p, h') -> get_can_port hil_open' h' b = Ok (p, h').
Proof.
  intros H. destruct (HalFacts.get_can_port_cases _ _ _ _ _ H) as (_ & _ & [[E ->]|[E Hc]]).
  - unfold get_can_port. now rewrite E.
  - unfold get_can_port. rewrite Hc, HalFacts.dict_get_app_fresh by exact E. reflexivity.
Qed.

Lemma get_can_port_cached_witness :
  (let! h := HalManager_init "sil" [] in
   let! ph := get_can_port hil_unavailable h "body" in
   get_can_port hil_unavailable (snd ph) "body")
  = Ok (MockCanPort "body",
        {| hm_mode := "SIL"; hm_config := []; hm_can_ports := [("body", MockCanPort "body")] |}).
Proof.
  cbn [bind HalManager_init].
  apply (get_can_port_cached hil_unavailable hil_unavailable
           {| hm_mode := upper "sil"; hm_config := []; hm_can_ports := [] |} "body").
  reflexivity.
Defined.

(** X2: a successful [get_can_port] keeps the mode and the configuration
    and either leaves the cache as it is (the bus was cached with that
    port) or appends exactly one entry for the bus; the cache never holds
    two ports for one bus. *)
Theorem get_can_port_extends hil_open h b p h' :
  get_can_port hil_open h b = Ok (p, h') ->
  hm_mode h' = hm_mode h /\ hm_config h' = hm_config h
  /\ (hm_can_ports h' = hm_can_ports h
      \/ (dict_get b (hm_can_ports h) = None
          /\ hm_can_ports h' = (hm_can_ports h ++ [(b, p)])%list))
  /\ (NoDup (map fst (hm_can_ports h)) -> NoDup (map fst (hm_can_ports h'))).
Proof.
  intros H. destruct (HalFacts.get_can_port_cases _ _ _ _ _ H) as (Hm & Hc & [[E ->]|[E Hp]]).
  - repeat split; auto.
  - repeat split; auto. intros Hnd. rewrite Hp. now apply HalFacts.nodup_app_fresh.
Qed.

Lemma get_can_port_extends_witness :
  let hil_open : string -> list (string * string) -> result BaseCanPort :=
    fun b cfg => Ok (HilCanPort b cfg) in
  let h := {| hm_mode := "HIL"; hm_config := [("body", [("channel", "can0")])];
              hm_can_ports := [("chassis", MockCanPort "chassis")] |} in
  let p := HilCanPort "body" [("channel", "can0")] in
  let h' := {| hm_mode := "HIL"; hm_config := [("body", [("channel", "can0")])];
               hm_can_ports := [("chassis", MockCanPort "chassis"); ("body", p)] |} in
  hm_mode h' = hm_mode h /\ hm_config h' = hm_config h
  /\ (hm_can_ports h' = hm_can_ports h
      \/ (dict_get "body" (hm_can_ports h) = None
          /\ hm_can_ports h' = (hm_can_ports h ++ [("body", p)])%list))
  /\ (NoDup (map fst (hm_can_ports h)) -> NoDup (map fst (hm_can_ports h'))).
Proof.
  intros hil_open h p h'. apply (get_can_port_extends hil_open h "body" p h'). reflexivity.
Defined.

(** X3: in MOCK or SIL mode, with only in-memory ports cached, every
    [get_can_port] returns the in-memory port of the bus, whatever the
    hardware opener would do (it is never called), and the cache keeps
    holding only in-memory ports. *)
Theorem get_can_port_mock_mode h b :
  (hm_mode h = "MOCK" \/ hm_mode h = "SIL") ->
  (forall k p, In (k, p) (hm_can_ports h) -> p = MockCanPort k) ->
  exists h', (forall hil_open', get_can_port hil_open' h b = Ok (MockCanPort b, h'))
    /\ (forall k p, In (k, p) (hm_can_ports h') -> p = MockCanPort k).
Proof.
  intros Hm Hc. destruct (HalFacts.get_can_port_mock hil_unavailable h b Hm Hc) as (h' & _ & H1 & H2 & _).
  eauto.
Qed.

Lemma get_can_port_mock_mode_witness :
  exists h', (forall hil_open', get_can_port hil_open'
                 {| hm_mode := upper "sil"; hm_config := []; hm_can_ports := [] |} "body"
                 = Ok (MockCanPort "body", h'))
    /\ (forall k p, In (k, p) (hm_can_ports h') -> p = MockCanPort k).
Proof.
  apply get_can_port_mock_mode.
  - right. reflexivity.
  - intros k p [].
Defined.

Module SendFacts.

Lemma hal_get_port_mock hil_open h mw b :
  (hm_mode h = "MOCK" \/ hm_mode h = "SIL") ->
  (forall k p, In (k, p) (hm_can_ports h) -> p = MockCanPort k) ->
  exists h', hal_get_port hil_open b (h, mw) = Ok (MockCanPort b, (h', mw)).
Proof.
  intros Hm Hc. destruct (HalFacts.get_can_port_mock hil_open h b Hm Hc) as (h' & H & _).
  exists h'. unfold hal_get_port. now rewrite H.
Qed.

Lemma set_signal_mock_world hil_open hil_send clock config h mw name v :
  (hm_mode h = "MOCK" \/ hm_mode h = "SIL") ->
  (forall k p, In (k, p) (hm_can_ports h) -> p = MockCanPort k) ->
  fst (set_signal (HalManager * MockWorld) BaseCanPort (hal_get_port hil_open)
         (hal_send clock hil_send) config name v (h, mw))
  = match signal_catalog_get config name with
    | Raise e => Raise e
    | Ok sd => match _encode sd v with Ok _ => Ok tt | Raise e => Raise e end
    end
  /\ rx_queues (snd (snd (set_signal (HalManager * MockWorld) BaseCanPort
         (hal_get_port hil_open) (hal_send clock hil_send) config name v (h, mw))))
     = rx_queues mw.
Proof.
  intros Hm Hc. unfold set_signal.
  destruct (signal_catalog_get config name) as [sd|e]; [|split; reflexivity].
  destruct (hal_get_port_mock hil_open h mw (bus sd) Hm Hc) as (h' & ->).
  destruct (_encode sd v) as [m|e]; [|split; reflexivity].
  cbn [hal_send mock_send mock_time success]. split; reflexivity.
Qed.

End SendFacts.

(** X4: in MOCK or SIL mode (only in-memory ports cached), [set_signal]
    succeeds exactly when the signal is in the catalog and its value
    encodes; otherwise it raises the catalog's [KeyError] or the encoder's
    error unchanged, never an [EnvironmentFault], since the in-memory
    [send] always acknowledges. *)
Theorem set_signal_mock_outcome hil_open hil_send clock config h mw name v :
  (hm_mode h = "MOCK" \/ hm_mode h = "SIL") ->
  (forall k p, In (k, p) (hm_can_ports h) -> p = MockCanPort k) ->
  fst (set_signal (HalManager * MockWorld) BaseCanPort (hal_get_port hil_open)
         (hal_send clock hil_send) config name v (h, mw))
  = match signal_catalog_get config name with
    | Raise e => Raise e
    | Ok sd => match _encode sd v with Ok _ => Ok tt | Raise e => Raise e end
    end.
Proof. intros Hm Hc. apply (SendFacts.set_signal_mock_world hil_open hil_send clock config h mw name v Hm Hc). Qed.

Lemma set_signal_mock_outcome_witness :
  fst (set_signal (HalManager * MockWorld) BaseCanPort (hal_get_port hil_unavailable)
         (hal_send frozen_clock (fun _ _ w => (Raise (CanError "no bench"), w))) sample_signals
         "Speed" (VInt 300) ({| hm_mode := "MOCK"; hm_config := []; hm_can_ports := [] |}, empty_world))
  = match signal_catalog_get sample_signals "Speed" with
    | Raise e => Raise e
    | Ok sd => match _encode sd (VInt 300) with Ok _ => Ok tt | Raise e => Raise e end
    end.
Proof.
  apply set_signal_mock_outcome.
  - left. reflexivity.
  - intros k p [].
Defined.

(** X5: [MockCanPort.send] does not loop frames back: in MOCK or SIL mode
    [set_signal] leaves every receive queue as it was, so a value set is
    never read back by [get_signal]. *)
Theorem set_signal_mock_no_loopback hil_open hil_send clock config h mw name v :
  (hm_mode h = "MOCK" \/ hm_mode h = "SIL") ->
  (forall k p, In (k, p) (hm_can_ports h) -> p = MockCanPort k) ->
  rx_queues (snd (snd (set_signal (HalManager * MockWorld) BaseCanPort
         (hal_get_port hil_open) (hal_send clock hil_send) config name v (h, mw))))
  = rx_queues mw.
Proof. intros Hm Hc. apply (SendFacts.set_signal_mock_world hil_open hil_send clock config h mw name v Hm Hc). Qed.

Lemma set_signal_mock_no_loopback_witness :
  rx_queues (snd (snd (set_signal (HalManager * MockWorld) BaseCanPort
         (hal_get_port hil_unavailable) (hal_send frozen_clock (fun _ _ w => (Raise (CanError "no bench"), w)))
         sample_signals "DoorState" (VStr "open")
         ({| hm_mode := "SIL"; hm_config := []; hm_can_ports := [("body", MockCanPort "body")] |},
          inject_message frozen_clock "body" (frame 288 Byte.x00) empty_world))))
  = rx_queues (inject_message frozen_clock "body" (frame 288 Byte.x00) empty_world).
Proof.
  apply set_signal_mock_no_loopback.
  - right. reflexivity.
  - intros k p [Heq|[]]. now inversion Heq.
Defined.

(** X6: the port is looked up before the value is encoded: in a mode other
    than HIL, MOCK and SIL, [set_signal] of a catalog signal whose bus has
    no cached port raises the manager's [CanError], whatever the value
    (even one that would not encode), and changes nothing. *)
Theorem set_signal_unsupported_mode hil_open hil_send clock config h mw name sd v :
  hm_mode h <> "HIL" -> hm_mode h <> "MOCK" -> hm_mode h <> "SIL" ->
  signal_catalog_get config name = Ok sd ->
  dict_get (bus sd) (hm_can_ports h) = None ->
  set_signal (HalManager * MockWorld) BaseCanPort (hal_get_port hil_open)
    (hal_send clock hil_send) config name v (h, mw)
  = (Raise (CanError ("Unsupported execution mode: " ++ hm_mode h)), (h, mw)).
Proof.
  intros H1 H2 H3 Hget Hc. unfold set_signal. rewrite Hget.
  unfold hal_get_port, get_can_port. rewrite Hc.
  apply String.eqb_neq in H1, H2, H3. rewrite H1, H2, H3. reflexivity.
Qed.

Lemma set_signal_unsupported_mode_witness :
  let h := {| hm_mode := upper "bench"; hm_config := []; hm_can_ports := [] |} in
  set_signal (HalManager * MockWorld) BaseCanPort (hal_get_port hil_unavailable)
    (hal_send frozen_clock
       (fun _ _ w => (Ok {| success := true; error_message := None; tr_timestamp := 0 |}, w)))
    sample_signals "DoorState" (VStr "AJAR") (h, empty_world)
  = (Raise (CanError ("Unsupported execution mode: " ++ hm_mode h)), (h, empty_world)).
Proof.
  intros h. apply (set_signal_unsupported_mode _ _ _ _ h _ _ door_sig); try discriminate; reflexivity.
Defined.

(** X7: [assert_signal_in] with the one-element list [[v]] behaves as
    [assert_signal_equal] with [v]: the same read, the same success, a
    [SutFault] in the same cases (only its text differs), the same other
    errors, the same world. *)
Theorem assert_signal_in_singleton {W} (read : string -> W -> option (result pyval * W)) name v w :
  outcome_kind (assert_signal_in W read name [v] w)
  = outcome_kind (assert_signal_equal W read name v w).
Proof.
  unfold assert_signal_in, assert_signal_equal.
  destruct (read name w) as [[[o|e] w']|]; [|reflexivity|reflexivity].
  cbn [existsb]. rewrite orb_false_r. destruct (pyval_eqb o v); reflexivity.
Qed.

(** X8: once the bus has a bench port, [set_signal] sends the encoded
    frame on it; a [HalError] (or subclass) raised by the send becomes an
    [EnvironmentFault] caused by it, other exceptions pass unchanged, and
    a send that reports no success raises an [EnvironmentFault] naming
    the bus and the port's error message. The manager is not changed. *)
Theorem set_signal_hil_send_failures hil_open hil_send clock config h mw name sd v m cfg :
  signal_catalog_get config name = Ok sd ->
  dict_get (bus sd) (hm_can_ports h) = Some (HilCanPort (bus sd) cfg) ->
  _encode sd v = Ok m ->
  set_signal (HalManager * MockWorld) BaseCanPort (hal_get_port hil_open)
    (hal_send clock hil_send) config name v (h, mw)
  = (match fst (hil_send (bus sd) m mw) with
     | Raise exc =>
         if is_hal_error exc
         then Raise (EnvironmentFault ("HAL failure while sending " ++ name ++ ": " ++ str_exn exc)
                                      (Some exc))
         else Raise exc
     | Ok res =>
         if success res then Ok tt
         else Raise (EnvironmentFault ("Transmission on bus " ++ bus sd ++ " failed: "
                                       ++ opt_str (error_message res)) None)
     end, (h, snd (hil_send (bus sd) m mw))).
Proof.
  intros Hget Hc He. unfold set_signal. rewrite Hget.
  unfold hal_get_port, get_can_port. rewrite Hc, He.
  cbn [hal_send]. destruct (hil_send (bus sd) m mw) as [[res|exc] mw'].
  - cbn [fst snd]. destruct (success res); reflexivity.
  - cbn [fst snd]. destruct (is_hal_error exc); reflexivity.
Qed.

Lemma set_signal_hil_send_failures_witness :
  let h := {| hm_mode := "HIL"; hm_config := [];
              hm_can_ports := [("body", HilCanPort "body" [])] |} in
  let tx_fail (b : string) (m : CanMessage) (w : MockWorld)
      : result TransmissionResult * MockWorld :=
    (Ok {| success := false; error_message := Some "Transmit buffer full"; tr_timestamp := 0 |}, w) in
  set_signal (HalManager * MockWorld) BaseCanPort (hal_get_port hil_unavailable)
    (hal_send frozen_clock tx_fail) sample_signals "DoorState" (VStr "open") (h, empty_world)
  = (Raise (EnvironmentFault ("Transmission on bus " ++ "body" ++ " failed: " ++ "Transmit buffer full")
                             None), (h, empty_world)).
Proof.
  intros h tx_fail.
  apply (set_signal_hil_send_failures hil_unavailable tx_fail frozen_clock sample_signals h
           empty_world "DoorState" door_sig (VStr "open")
           {| msg_can_id := 288; msg_data := [Byte.x01]; is_extended_id := false;
              timestamp := None |} []); reflexivity.
Defined.



Module HilFacts.

Lemma get_loop_failure clock bus_recv name sd D k msg :
  (forall i, (1 <= i <= S k)%nat -> (clock i < D)%Z) ->
  (forall j, (j < k)%nat -> bus_recv j = NoFrame) -> bus_recv k = BusFailure msg ->
  forall fuel j, (j <= k)%nat -> (k - j < fuel)%nat ->
  get_loop HilWorld (hil_time clock) (hil_receive bus_recv) fuel name sd D
    {| clock_idx := S j; rx_idx := j |}
  = Some (Raise (OtherError msg), {| clock_idx := S (S k); rx_idx := S k |}).
Proof.
  intros Hclk Hno Hk fuel. induction fuel as [|fuel IH]; intros j Hj Hf; [lia|].
  cbn [get_loop hil_time clock_idx rx_idx].
  destruct (Z.leb_spec (Z.max (D - clock (S j)) 0) 0) as [Hle|_].
  { pose proof (Hclk (S j) ltac:(lia)). lia. }
  unfold hil_receive. cbn [clock_idx rx_idx].
  destruct (Nat.eq_dec j k) as [->|Hne].
  - rewrite Hk. reflexivity.
  - rewrite (Hno j ltac:(lia)). apply IH; lia.
Qed.


End HilFacts.

(** X10: on the bench, an error raised by python-can's [recv] is not a
    [HalError], so [get_signal] lets it through unwrapped (not as an
    [EnvironmentFault]), after retrying every empty poll before it. *)
Theorem get_signal_bus_failure_unwrapped clock bus_recv catalog name sd T k msg fuel :
  signal_catalog_get catalog name = Ok sd ->
  (forall i, (1 <= i <= S k)%nat -> (clock i < clock O + T)%Z) ->
  (forall j, (j < k)%nat -> bus_recv j = NoFrame) -> bus_recv k = BusFailure msg ->
  (k < fuel)%nat ->
  get_signal HilWorld (hil_time clock) (hil_receive bus_recv) catalog fuel name T
    {| clock_idx := 0; rx_idx := 0 |}
  = Some (Raise (OtherError msg), {| clock_idx := S (S k); rx_idx := S k |}).
Proof.
  intros Hget Hclk Hno Hk Hf. unfold get_signal. rewrite Hget. cbn [hil_time clock_idx rx_idx].
  apply (HilFacts.get_loop_failure clock bus_recv name sd _ k msg Hclk Hno Hk fuel 0); lia.
Qed.

Lemma get_signal_bus_failure_unwrapped_witness :
  get_signal HilWorld (hil_time (fun k => 1000 + Z.of_nat k)%Z)
    (hil_receive (fun k => match k with 0%nat | 1%nat => NoFrame | _ => BusFailure "bus off" end))
    sample_signals 5 "Speed" 1000 {| clock_idx := 0; rx_idx := 0 |}
  = Some (Raise (OtherError "bus off"), {| clock_idx := 4; rx_idx := 3 |}).
Proof.
  apply (get_signal_bus_failure_unwrapped _ _ _ _ speed_sig 1000 2); try reflexivity; try lia.
  intros j Hj. destruct j as [|[|j]]; [reflexivity|reflexivity|lia].
Defined.



(** X12: [CanMessage.with_timestamp] is idempotent: stamping a stamped frame
    keeps its timestamp and reads no clock. *)
Theorem with_timestamp_idempotent clock m w :
  with_timestamp clock (fst (with_timestamp clock m w)) (snd (with_timestamp clock m w))
  = with_timestamp clock m w.
Proof. unfold with_timestamp. destruct (timestamp m); reflexivity. Qed.

(** X13: injecting a frame on one bus leaves the queue of every other bus
    as it was. *)
Theorem inject_other_bus clock b b' m w :
  b' <> b -> queue_of b' (inject_message clock b m w) = queue_of b' w.
Proof.
  intros Hne. destruct (MockFacts.with_timestamp_fields clock m w) as (_ & _ & Hq).
  unfold inject_message. destruct (with_timestamp clock m w) as [m' w'] eqn:E.
  simpl in Hq. unfold queue_of, set_queue. simpl.
  rewrite DictFacts.dict_get_set. apply String.eqb_neq in Hne. rewrite Hne, Hq. reflexivity.
Qed.

Lemma inject_other_bus_witness :
  queue_of "chassis" (inject_message frozen_clock "body" (frame 288 Byte.x01)
                        (inject_message frozen_clock "chassis" (frame 512 Byte.x07) empty_world))
  = queue_of "chassis" (inject_message frozen_clock "chassis" (frame 512 Byte.x07) empty_world).
Proof. apply inject_other_bus. discriminate. Defined.

Module MockRecv.


End MockRecv.





Module StepFacts.

Lemma run_steps_app {S} (actions : list (string * handler S)) pre post es :
  run_steps S actions (pre ++ post) es
  = match run_steps S actions pre es with
    | (Ok _, es') => run_steps S actions post es'
    | r => r
    end.
Proof.
  revert es. induction pre as [|step pre IH]; intros es; [reflexivity|].
  cbn [app run_steps]. destruct (_dispatch S actions step es) as [[u|e] es'].
  - apply IH.
  - reflexivity.
Qed.

Lemma run_steps_ok_log {S} (actions : list (string * handler S)) ss :
  forall s log u s' log',
  run_steps S actions ss (s, log) = (Ok u, (s', log')) -> log' = (log ++ ss)%list.
Proof.
  induction ss as [|step ss IH]; intros s log u s' log' H.
  - inversion H; subst. now rewrite app_nil_r.
  - cbn [run_steps] in H.
    pose proof (Engine.dispatch_log actions step s log) as Hl.
    destruct (_dispatch S actions step (s, log)) as [[u1|e] [s1 log1]]; [|discriminate].
    simpl in Hl. subst log1. rewrite (IH _ _ _ _ _ H). now rewrite <- app_assoc.
Qed.

End StepFacts.

(** X16: with the built-in actions, an [assert_signal_range] step always
    fails (a step value is never a mapping): once the steps before it have
    succeeded, [apply] raises an [EnvironmentFault] caused by that
    [ValueError], the world is the one the earlier steps left, the steps
    after it are never dispatched, and the rollback runs. *)
Theorem apply_range_step_fails {S} bs bw be bi catalog name d pre rest es s1 log1 t v :
  precondition_catalog_get catalog name = Ok d ->
  steps d = (pre ++ {| action := "assert_signal_range"; target := t; value := v |} :: rest)%list ->
  run_steps S (builtin_actions S bs bw be bi) pre es = (Ok tt, (s1, log1)) ->
  apply S (builtin_actions S bs bw be bi) catalog name es
  = (Raise (EnvironmentFault ("Precondition " ++ name ++ " failed: " ++ range_msg)
                             (Some (ValueError range_msg))),
     _rollback S (builtin_actions S bs bw be bi) d
       (s1, (log1 ++ [{| action := "assert_signal_range"; target := t; value := v |}])%list)).
Proof.
  intros Hget Hsteps Hpre. unfold apply. rewrite Hget, Hsteps, StepFacts.run_steps_app, Hpre.
  reflexivity.
Qed.

Lemma apply_range_step_fails_witness :
  let bs : string -> pyval -> list string -> result unit * list string :=
    fun t _ s => (Ok tt, (s ++ [t])%list) in
  let bw : string -> pyval -> Z -> list string -> result unit * list string :=
    fun t _ _ s => (Ok tt, (s ++ [t])%list) in
  let be : string -> pyval -> Z -> list string -> result unit * list string :=
    fun t _ _ s => (Ok tt, s) in
  let bi : string -> list pyval -> Z -> list string -> result unit * list string :=
    fun t _ _ s => (Ok tt, s) in
  let st1 := {| action := "set_signal"; target := "VehicleSpeedTarget"; value := VStr "30" |} in
  let st2 := {| action := "assert_signal_range"; target := "VehicleSpeed"; value := VStr "0..30" |} in
  let st3 := {| action := "wait_for_signal"; target := "GearPosition"; value := VStr "D" |} in
  let d := {| pd_name := "Driving"; description := None; steps := [st1; st2; st3];
              rollback := [{| action := "set_signal"; target := "VehicleSpeedTarget";
                              value := VStr "0" |}] |} in
  apply (list string) (builtin_actions (list string) bs bw be bi) [("Driving", d)] "Driving" ([], [])
  = (Raise (EnvironmentFault ("Precondition " ++ "Driving" ++ " failed: " ++ range_msg)
                             (Some (ValueError range_msg))),
     _rollback (list string) (builtin_actions (list string) bs bw be bi) d
       (["VehicleSpeedTarget"], ([st1] ++ [st2])%list)).
Proof.
  intros bs bw be bi st1 st2 st3 d.
  apply (apply_range_step_fails bs bw be bi [("Driving", d)] "Driving" d [st1] [st3]);
    reflexivity.
Defined.

(** X17: after [register_action(name, h)], a step whose action is [name]
    runs [h] (a built-in of that name is replaced), and every other step
    is dispatched as before. *)
Theorem dispatch_registered {S} (actions : list (string * handler S)) name h step s log :
  _dispatch S (register_action name h actions) step (s, log)
  = if String.eqb (action step) name
    then let '(r, s') := h (target step) (value step) s in (r, (s', (log ++ [step])%list))
    else _dispatch S actions step (s, log).
Proof.
  unfold _dispatch, register_action. rewrite DictFacts.dict_get_set.
  destruct (String.eqb (action step) name); reflexivity.
Qed.

(** X18: when [apply] succeeds, every step of the precondition ran, in
    order, and nothing else was dispatched (no rollback step). *)
Theorem apply_success_log {S} (actions : list (string * handler S)) catalog name s log es' :
  apply S actions catalog name (s, log) = (Ok tt, es') ->
  exists d, precondition_catalog_get catalog name = Ok d
    /\ run_steps S actions (steps d) (s, log) = (Ok tt, es')
    /\ snd es' = (log ++ steps d)%list.
Proof.
  unfold apply. destruct (precondition_catalog_get catalog name) as [d|e]; [|discriminate].
  destruct (run_steps S actions (steps d) (s, log)) as [[u|e] [s' log']] eqn:E; [|discriminate].
  intros H. inversion H; subst. exists d. destruct u.
  split; [reflexivity|]. split; [exact E|]. exact (StepFacts.run_steps_ok_log _ _ _ _ _ _ _ E).
Qed.

Lemma apply_success_log_witness :
  let st := [{| action := "set_signal"; target := "a"; value := VNone |};
             {| action := "set_signal"; target := "b"; value := VNone |}] in
  let cat := [("Standby", {| pd_name := "Standby"; description := None; steps := st;
                              rollback := [{| action := "fail"; target := "r"; value := VNone |}] |})] in
  apply (list string) trace_actions cat "Standby" ([], []) = (Ok tt, (["a"; "b"], st))
  /\ exists d, precondition_catalog_get cat "Standby" = Ok d
    /\ run_steps (list string) trace_actions (steps d) ([], []) = (Ok tt, (["a"; "b"], st))
    /\ snd (["a"; "b"], st) = ([] ++ steps d)%list.
Proof.
  intros st cat. split; [reflexivity|].
  apply (apply_success_log trace_actions cat "Standby" [] [] (["a"; "b"], st)). reflexivity.
Defined.

Module TextFacts.

Lemma lstrip_nonblank_head l :
  match l with c :: _ => is_blank c = false | [] => True end ->
  lstrip (string_of_list_ascii l) = string_of_list_ascii l.
Proof. destruct l as [|c l]; [reflexivity|]. intros H. cbn. now rewrite H. Qed.

Lemma head_nonblank l :
  Forall (fun c => is_blank c = false) l ->
  match l with c :: _ => is_blank c = false | [] => True end.
Proof. intros H. destruct H; [exact I|assumption]. Qed.

Lemma last_nonblank l :
  Forall (fun c => is_blank c = false) l ->
  match rev l with c :: _ => is_blank c = false | [] => True end.
Proof.
  intros H. apply head_nonblank, Forall_rev, H.
Qed.

(** [strip] leaves a text without blanks unchanged. *)
Lemma strip_id s :
  Forall (fun c => is_blank c = false) (list_ascii_of_string s) -> strip s = s.
Proof.
  intros H. unfold strip.
  rewrite <- (string_of_list_ascii_of_string s) at 1.
  rewrite (lstrip_nonblank_head (list_ascii_of_string s))
    by (apply head_nonblank; exact H).
  rewrite list_ascii_of_string_of_list_ascii.
  rewrite lstrip_nonblank_head by now apply last_nonblank.
  rewrite list_ascii_of_string_of_list_ascii, rev_involutive.
  apply string_of_list_ascii_of_string.
Qed.



Lemma digit_char_facts d :
  (d < 10)%N ->
  is_dec (digit_char d) = true /\ is_blank (digit_char d) = false
  /\ Z.of_nat (nat_of_ascii (digit_char d) - 48) = Z.of_N d.
Proof.
  intros Hd.
  assert (d = 0 \/ d = 1 \/ d = 2 \/ d = 3 \/ d = 4 \/ d = 5 \/ d = 6 \/ d = 7
          \/ d = 8 \/ d = 9)%N as Hc by lia.
  repeat destruct Hc as [Hc|Hc]; subst d; repeat split; reflexivity.
Qed.

Lemma hex_char_facts d :
  (d < 16)%N ->
  hex_digit_value (hex_char d) = Some (Z.of_N d)
  /\ is_blank (hex_char d) = false /\ is_blank (ascii_upper (hex_char d)) = false.
Proof.
  intros Hd.
  assert (d = 0 \/ d = 1 \/ d = 2 \/ d = 3 \/ d = 4 \/ d = 5 \/ d = 6 \/ d = 7
          \/ d = 8 \/ d = 9 \/ d = 10 \/ d = 11 \/ d = 12 \/ d = 13 \/ d = 14
          \/ d = 15)%N as Hc by lia.
  repeat destruct Hc as [Hc|Hc]; subst d; repeat split; reflexivity.
Qed.

(** [int(s, 16)] reads upper- and lower-case digits alike. *)
Lemma hex_digit_value_upper c : hex_digit_value (ascii_upper c) = hex_digit_value c.
Proof. destruct c as [[] [] [] [] [] [] [] []]; reflexivity. Qed.

Lemma parse_hex_digits_upper s : forall a,
  parse_hex_digits (upper s) a = parse_hex_digits s a.
Proof.
  induction s as [|c s IH]; intros a; [reflexivity|].
  cbn [upper parse_hex_digits]. rewrite hex_digit_value_upper.
  destruct (hex_digit_value c); [apply IH|reflexivity].
Qed.

Lemma dec_char_facts c :
  is_dec c = true -> ascii_lower c = c /\ Ascii.eqb c "x" = false.
Proof. destruct c as [[] [] [] [] [] [] [] []]; cbv; first [discriminate | split; reflexivity]. Qed.

Lemma Forall_upper (P : ascii -> Prop) s :
  Forall (fun c => P (ascii_upper c)) (list_ascii_of_string s) ->
  Forall P (list_ascii_of_string (upper s)).
Proof.
  induction s as [|c s IH]; intros H; cbn; [constructor|].
  inversion H; subst. constructor; auto.
Qed.

Lemma pow_size_bound (b : N) n :
  (2 <= b)%N -> (n < b ^ N.of_nat (S (N.to_nat (N.size n))))%N.
Proof.
  intros Hb. rewrite Nat2N.inj_succ, N2Nat.id, N.pow_succ_r'.
  pose proof (N.size_gt n) as H1.
  assert (2 ^ N.size n <= b ^ N.size n)%N by (apply N.pow_le_mono_l; lia).
  assert (1 <= b ^ N.size n)%N.
  { assert (b ^ N.size n <> 0)%N by (apply N.pow_nonzero; lia). lia. }
  nia.
Qed.

(** Decimal digits: [N_digits] and [parse_digits]. *)
Lemma N_digits_parse fuel : forall n acc,
  (n < 10 ^ N.of_nat fuel)%N ->
  parse_digits (N_digits fuel n acc) 0 = parse_digits acc (Z.of_N n).
Proof.
  induction fuel as [|f IH]; intros n acc Hn.
  - cbn in Hn. assert (n = 0%N) by lia. now subst.
  - cbn [N_digits]. destruct (N.ltb_spec n 10) as [Hlt|Hge].
    + destruct (digit_char_facts n Hlt) as [H1 [_ H2]].
      unfold is_dec in H1. cbn [parse_digits]. rewrite H1, H2. reflexivity.
    + rewrite Nat2N.inj_succ, N.pow_succ_r' in Hn.
      rewrite IH by (apply N.Div0.div_lt_upper_bound; lia).
      assert (Hm : (n mod 10 < 10)%N) by (apply N.mod_lt; lia).
      destruct (digit_char_facts _ Hm) as [H1 [_ H2]].
      unfold is_dec in H1. cbn [parse_digits]. rewrite H1, H2. f_equal.
      pose proof (N.Div0.div_mod n 10). lia.
Qed.

Lemma N_digits_chars (P : ascii -> Prop) fuel : forall n acc,
  (forall d, (d < 10)%N -> P (digit_char d)) ->
  Forall P (list_ascii_of_string acc) ->
  Forall P (list_ascii_of_string (N_digits fuel n acc)).
Proof.
  induction fuel as [|f IH]; intros n acc HP Hacc; [exact Hacc|].
  cbn [N_digits]. destruct (N.ltb_spec n 10).
  - cbn. constructor; auto.
  - apply IH; [exact HP|]. cbn. constructor; [apply HP, N.mod_lt; lia | exact Hacc].
Qed.

Lemma N_digits_head fuel : forall n acc,
  (fuel <> O \/ exists d r, (d < 10)%N /\ acc = String (digit_char d) r) ->
  exists d r, (d < 10)%N /\ N_digits fuel n acc = String (digit_char d) r.
Proof.
  induction fuel as [|f IH]; intros n acc H.
  - destruct H as [H|H]; [congruence|exact H].
  - cbn [N_digits]. destruct (N.ltb_spec n 10).
    + now exists n, acc.
    + apply IH. right. exists (n mod 10)%N, acc. split; [apply N.mod_lt; lia|reflexivity].
Qed.

Lemma N_hex_digits_parse fuel : forall n acc,
  (n < 16 ^ N.of_nat fuel)%N ->
  parse_hex_digits (N_hex_digits fuel n acc) 0 = parse_hex_digits acc (Z.of_N n).
Proof.
  induction fuel as [|f IH]; intros n acc Hn.
  - cbn in Hn. assert (n = 0%N) by lia. now subst.
  - cbn [N_hex_digits]. destruct (N.ltb_spec n 16) as [Hlt|Hge].
    + destruct (hex_char_facts n Hlt) as [H1 _].
      cbn [parse_hex_digits]. rewrite H1. reflexivity.
    + rewrite Nat2N.inj_succ, N.pow_succ_r' in Hn.
      rewrite IH by (apply N.Div0.div_lt_upper_bound; lia).
      assert (Hm : (n mod 16 < 16)%N) by (apply N.mod_lt; lia).
      destruct (hex_char_facts _ Hm) as [H1 _].
      cbn [parse_hex_digits]. rewrite H1. f_equal.
      pose proof (N.Div0.div_mod n 16). lia.
Qed.

Lemma N_hex_digits_chars (P : ascii -> Prop) fuel : forall n acc,
  (forall d, (d < 16)%N -> P (hex_char d)) ->
  Forall P (list_ascii_of_string acc) ->
  Forall P (list_ascii_of_string (N_hex_digits fuel n acc)).
Proof.
  induction fuel as [|f IH]; intros n acc HP Hacc; [exact Hacc|].
  cbn [N_hex_digits]. destruct (N.ltb_spec n 16).
  - cbn. constructor; auto.
  - apply IH; [exact HP|]. cbn. constructor; [apply HP, N.mod_lt; lia | exact Hacc].
Qed.

Lemma N_hex_digits_nonempty fuel : forall n acc,
  (fuel <> O \/ exists c r, acc = String c r) ->
  exists c r, N_hex_digits fuel n acc = String c r.
Proof.
  induction fuel as [|f IH]; intros n acc H.
  - destruct H as [H|H]; [congruence|exact H].
  - cbn [N_hex_digits]. destruct (N.ltb_spec n 16).
    + now exists (hex_char n), acc.
    + apply IH. right. now eexists _, acc.
Qed.

Lemma N_to_string_parse n : parse_digits (N_to_string n) 0 = Some (Z.of_N n).
Proof. unfold N_to_string. rewrite N_digits_parse by (apply pow_size_bound; lia). reflexivity. Qed.

Lemma N_to_string_chars n :
  Forall (fun c => is_dec c = true /\ is_blank c = false) (list_ascii_of_string (N_to_string n)).
Proof.
  apply N_digits_chars; [|constructor].
  intros d Hd. destruct (digit_char_facts d Hd) as [H1 [H2 _]]. auto.
Qed.

Lemma N_to_string_head n :
  exists d r, (d < 10)%N /\ N_to_string n = String (digit_char d) r.
Proof. apply N_digits_head. left. discriminate. Qed.

Lemma N_to_hex_parse n : parse_hex_digits (N_to_hex n) 0 = Some (Z.of_N n).
Proof. unfold N_to_hex. rewrite N_hex_digits_parse by (apply pow_size_bound; lia). reflexivity. Qed.

Lemma N_to_hex_chars n :
  Forall (fun c => is_blank c = false /\ is_blank (ascii_upper c) = false)
         (list_ascii_of_string (N_to_hex n)).
Proof.
  apply N_hex_digits_chars; [|constructor].
  intros d Hd. destruct (hex_char_facts d Hd) as [_ [H1 H2]]. auto.
Qed.

Lemma N_to_hex_nonempty n : exists c r, N_to_hex n = String c r.
Proof. apply N_hex_digits_nonempty. left. discriminate. Qed.

Lemma prefix_0x t : String.prefix "0x" (String "0" (String "x" t)) = true.
Proof. destruct t; reflexivity. Qed.

Lemma parse_hex_unsigned_cons s c r :
  s = String c r -> parse_hex_unsigned s = parse_hex_digits s 0.
Proof. intros E. now subst. Qed.

(** [int(s)] of a decimal numeral whose first character is a digit. *)
Lemma parse_int_digit_head s :
  strip s = s -> (exists d r, (d < 10)%N /\ s = String (digit_char d) r) ->
  parse_int s = parse_digits s 0.
Proof.
  intros Hs [d [r [Hd E]]]. unfold parse_int. rewrite Hs. subst s.
  assert (d = 0 \/ d = 1 \/ d = 2 \/ d = 3 \/ d = 4 \/ d = 5 \/ d = 6 \/ d = 7
          \/ d = 8 \/ d = 9)%N as Hc by lia.
  repeat destruct Hc as [Hc|Hc]; subst d; reflexivity.
Qed.

Lemma N_to_string_no_hex_prefix n : String.prefix "0x" (lower (N_to_string n)) = false.
Proof.
  pose proof (N_to_string_chars n) as H.
  destruct (N_to_string n) as [|c [|c' t]]; [reflexivity| |].
  - cbn [lower String.prefix]. destruct (ascii_dec "0" (ascii_lower c)); reflexivity.
  - inversion H as [|? ? _ H2]; subst. inversion H2 as [|? ? [Hd _] _]; subst.
    destruct (dec_char_facts c' Hd) as [E1 E2].
    cbn [lower String.prefix]. rewrite E1.
    destruct (ascii_dec "0" (ascii_lower c)); [|reflexivity].
    destruct (ascii_dec "x" c') as [E|]; [subst; discriminate E2|reflexivity].
Qed.

Lemma Forall_nonblank_app s t :
  Forall (fun c => is_blank c = false) (list_ascii_of_string s) ->
  Forall (fun c => is_blank c = false) (list_ascii_of_string t) ->
  Forall (fun c => is_blank c = false) (list_ascii_of_string (s ++ t)).
Proof.
  induction s as [|c s IH]; intros Hs Ht; [exact Ht|].
  inversion Hs; subst. cbn. constructor; auto.
Qed.

(** [int(str(z))] is [z]. *)
Lemma py_int_Z_to_string z : py_int (VStr (Z_to_string z)) = Ok z.
Proof.
  unfold py_int, Z_to_string.
  destruct (Z.ltb_spec z 0) as [Hz|Hz].
  - unfold parse_int.
    rewrite strip_id.
    + destruct (N_to_string_head (Z.to_N (- z))) as [d [r [_ E]]].
      cbn [append]. unfold parse_unsigned. rewrite E, <- E, N_to_string_parse.
      cbn. f_equal. lia.
    + apply (Forall_nonblank_app "-"); [repeat constructor|].
      eapply Forall_impl; [|apply N_to_string_chars]. cbn. tauto.
  - rewrite parse_int_digit_head.
    + rewrite N_to_string_parse. f_equal. lia.
    + apply strip_id. eapply Forall_impl; [|apply N_to_string_chars]. cbn. tauto.
    + apply N_to_string_head.
Qed.

End TextFacts.

(** X19: [parse_can_id] reads back what [hex()] and [str()] print: the
    text [0x] followed by the hexadecimal digits of [n], the same text
    with [0X] and upper-case digits, and the decimal digits of [n] all
    give the id [n]. *)
Theorem parse_can_id_roundtrip n :
  parse_can_id (VStr ("0x" ++ N_to_hex n)) = Ok (Z.of_N n)
  /\ parse_can_id (VStr ("0X" ++ upper (N_to_hex n))) = Ok (Z.of_N n)
  /\ parse_can_id (VStr (N_to_string n)) = Ok (Z.of_N n).
Proof.
  destruct (TextFacts.N_to_hex_nonempty n) as [c [r E]].
  pose proof (TextFacts.N_to_hex_chars n) as Hch.
  split; [|split].
  - assert (Hp : String.prefix "0x" (lower ("0x" ++ N_to_hex n)) = true)
      by apply TextFacts.prefix_0x.
    unfold parse_can_id. rewrite Hp. unfold parse_int16. rewrite TextFacts.strip_id.
    + change ("0x" ++ N_to_hex n) with (String "0" (String "x" (N_to_hex n))).
      cbv beta iota delta [parse_hex_body Ascii.eqb Bool.eqb andb orb].
      rewrite (TextFacts.parse_hex_unsigned_cons _ c r E), TextFacts.N_to_hex_parse.
      reflexivity.
    + repeat constructor. eapply Forall_impl; [|exact Hch]. cbn. tauto.
  - assert (Hp : String.prefix "0x" (lower ("0X" ++ upper (N_to_hex n))) = true)
      by apply TextFacts.prefix_0x.
    unfold parse_can_id. rewrite Hp. unfold parse_int16. rewrite TextFacts.strip_id.
    + change ("0X" ++ upper (N_to_hex n)) with (String "0" (String "X" (upper (N_to_hex n)))).
      cbv beta iota delta [parse_hex_body Ascii.eqb Bool.eqb andb orb].
      rewrite (TextFacts.parse_hex_unsigned_cons _ (ascii_upper c) (upper r))
        by (rewrite E; reflexivity).
      rewrite TextFacts.parse_hex_digits_upper, TextFacts.N_to_hex_parse.
      reflexivity.
    + repeat constructor. apply TextFacts.Forall_upper.
      eapply Forall_impl; [|exact Hch]. cbn. tauto.
  - unfold parse_can_id. rewrite TextFacts.N_to_string_no_hex_prefix.
    pose proof (TextFacts.py_int_Z_to_string (Z.of_N n)) as H.
    unfold Z_to_string in H. rewrite N2Z.id in H.
    destruct (Z.ltb_spec (Z.of_N n) 0); [lia|exact H].
Qed.


(** X21: an [int] or [uint] signal accepts the decimal text of a number as
    that number ([int(str(z))] is [z]). *)
Theorem encode_decimal_string sd z :
  ptype (sig_payload sd) <> PT_enum ->
  _encode sd (VStr (Z_to_string z)) = _encode sd (VInt z).
Proof.
  intros Ht. unfold _encode.
  destruct (ptype (sig_payload sd)); [congruence| |];
    rewrite TextFacts.py_int_Z_to_string; reflexivity.
Qed.

Lemma encode_decimal_string_witness :
  _encode speed_sig (VStr (Z_to_string 30)) = _encode speed_sig (VInt 30).
Proof. apply encode_decimal_string. discriminate. Defined.

Module CatalogFacts.

Lemma catalog_from_other entries : forall defs cat,
  signal_catalog_from entries defs = Ok cat ->
  forall k, ~ In k (map fst entries) -> dict_get k cat = dict_get k defs.
Proof.
  induction entries as [|[n p] es IH]; intros defs cat H k Hk.
  - now inversion H.
  - cbn [signal_catalog_from] in H.
    destruct (parse_can_id (raw_can_id p)) as [cid|e]; [|discriminate].
    cbn [bind] in H. rewrite (IH _ _ H k) by (intros Hin; apply Hk; now right).
    rewrite DictFacts.dict_get_set.
    destruct (String.eqb_spec k n) as [E|]; [|reflexivity].
    exfalso. apply Hk. left. now subst.
Qed.

Lemma catalog_from_entry entries : forall defs cat name raw,
  NoDup (map fst entries) ->
  signal_catalog_from entries defs = Ok cat ->
  In (name, raw) entries ->
  exists cid, parse_can_id (raw_can_id raw) = Ok cid
    /\ dict_get name cat = Some {| sig_name := name; bus := raw_bus raw; can_id := cid;
                                   sig_payload := raw_payload raw |}.
Proof.
  induction entries as [|[n p] es IH]; intros defs cat name raw Hnd H Hin; [destruct Hin|].
  cbn [signal_catalog_from] in H. inversion Hnd as [|? ? Hn Hnd']; subst.
  destruct (parse_can_id (raw_can_id p)) as [cid|e] eqn:Ep; [|discriminate].
  cbn [bind] in H. destruct Hin as [Heq|Hin].
  - inversion Heq; subst. exists cid. split; [exact Ep|].
    rewrite (catalog_from_other _ _ _ H name Hn), DictFacts.dict_get_set, String.eqb_refl.
    reflexivity.
  - exact (IH _ _ _ _ Hnd' H Hin).
Qed.

End CatalogFacts.

(** X22: [SignalCatalog.from_path] stores each entry of [signals] under its
    own key, named after that key, with its bus and payload and the
    validated CAN id. *)
Theorem signal_catalog_from_names entries defs cat name raw :
  NoDup (map fst entries) ->
  signal_catalog_from entries defs = Ok cat ->
  In (name, raw) entries ->
  exists cid, parse_can_id (raw_can_id raw) = Ok cid
    /\ signal_catalog_get cat name
       = Ok {| sig_name := name; bus := raw_bus raw; can_id := cid;
               sig_payload := raw_payload raw |}.
Proof.
  intros Hnd H Hin.
  destruct (CatalogFacts.catalog_from_entry entries defs cat name raw Hnd H Hin) as [cid [E1 E2]].
  exists cid. split; [exact E1|]. unfold signal_catalog_get. now rewrite E2.
Qed.

Lemma signal_catalog_from_names_witness :
  exists cid, parse_can_id (raw_can_id raw_door) = Ok cid
    /\ signal_catalog_get
         (match signal_catalog_from raw_entries [] with Ok c => c | Raise _ => [] end) "DoorState"
       = Ok {| sig_name := "DoorState"; bus := raw_bus raw_door; can_id := cid;
               sig_payload := raw_payload raw_door |}.
Proof.
  apply (signal_catalog_from_names raw_entries []).
  - constructor; [cbn; intros [H|[]]; discriminate H|].
    constructor; [cbn; tauto|constructor].
  - reflexivity.
  - left. reflexivity.
Defined.

Module MergeFacts.

Lemma merge_value_dicts b o : merge_value (Some (YDict b)) (YDict o) = YDict (_deep_merge b o).
Proof. reflexivity. Qed.

Lemma untouched o : forall b k,
  dict_get k o = None -> dict_get k (_deep_merge b o) = dict_get k b.
Proof.
  induction o as [|[key v] o IH]; intros b k H; [reflexivity|].
  cbn [dict_get] in H. cbn [_deep_merge].
  destruct (String.eqb_spec k key) as [|Hne]; [discriminate|].
  rewrite IH by exact H. rewrite DictFacts.dict_get_set.
  now destruct (String.eqb_spec k key).
Qed.

Lemma override o : forall b k v,
  NoDup (map fst o) -> dict_get k o = Some v ->
  dict_get k (_deep_merge b o) = Some (merge_value (dict_get k b) v).
Proof.
  induction o as [|[key w] o IH]; intros b k v Hnd H; [discriminate|].
  inversion Hnd as [|? ? Hn Hnd']; subst.
  cbn [dict_get] in H. cbn [_deep_merge].
  destruct (String.eqb_spec k key) as [E|Hne].
  - inversion H; subst. rewrite untouched.
    + now rewrite DictFacts.dict_get_set, String.eqb_refl.
    + destruct (dict_get key o) eqn:Eg; [|reflexivity].
      exfalso. apply Hn. apply DictFacts.dict_get_some_in in Eg.
      now apply (in_map fst) in Eg.
  - rewrite (IH _ _ _ Hnd' H), DictFacts.dict_get_set.
    now destruct (String.eqb_spec k key).
Qed.

End MergeFacts.

(** X23: [_deep_merge] leaves every key the override does not mention as
    the base has it. *)
Theorem deep_merge_untouched b o k :
  dict_get k o = None -> dict_get k (_deep_merge b o) = dict_get k b.
Proof. apply MergeFacts.untouched. Qed.

Lemma deep_merge_untouched_witness :
  dict_get "mode" (_deep_merge base_yaml profile_yaml) = dict_get "mode" base_yaml.
Proof. apply deep_merge_untouched. reflexivity. Defined.

(** X24: for a key of the override, [_deep_merge] merges recursively when
    both sides hold a mapping, and otherwise takes the override's value. *)
Theorem deep_merge_override b o k v :
  NoDup (map fst o) -> dict_get k o = Some v ->
  dict_get k (_deep_merge b o)
  = Some (match dict_get k b, v with
          | Some (YDict bd), YDict od => YDict (_deep_merge bd od)
          | _, _ => v
          end).
Proof.
  intros Hnd H. rewrite (MergeFacts.override o b k v Hnd H).
  destruct (dict_get k b) as [[x|l|bd]|]; destruct v; reflexivity.
Qed.

Lemma deep_merge_override_witness :
  dict_get "timeouts" (_deep_merge base_yaml profile_yaml)
  = Some (match dict_get "timeouts" base_yaml, YDict [("can", YScalar (VInt 2))] with
          | Some (YDict bd), YDict od => YDict (_deep_merge bd od)
          | _, _ => YDict [("can", YScalar (VInt 2))]
          end).
Proof.
  apply deep_merge_override; [|reflexivity].
  constructor; [cbn; intros [H|[]]; discriminate H|].
  constructor; [cbn; tauto|constructor].
Defined.

(** X25: in [FrameworkConfig.merge], a value that is not a mapping, set by
    the last profile whose file exists, is the merged value of its key. *)
Theorem framework_merge_last_profile_wins base before p after k v :
  NoDup (map fst p) -> dict_get k p = Some v -> (forall d, v <> YDict d) ->
  Forall (fun q => q = None) after ->
  dict_get k (framework_merge base (before ++ Some p :: after)) = Some v.
Proof.
  intros Hnd H Hv Hafter. unfold framework_merge. rewrite fold_left_app. cbn [fold_left].
  set (m0 := fold_left _ before base).
  assert (Hm : dict_get k (_deep_merge m0 p) = Some v).
  { rewrite (MergeFacts.override p m0 k v Hnd H).
    destruct v as [x|l|d]; [reflexivity|reflexivity|].
    exfalso. exact (Hv d eq_refl). }
  revert Hm. generalize (_deep_merge m0 p) as m.
  induction Hafter as [|q qs Hq _ IH]; intros m Hm; [exact Hm|].
  subst q. cbn [fold_left]. exact (IH m Hm).
Qed.

Lemma framework_merge_last_profile_wins_witness :
  dict_get "mode" (framework_merge base_yaml ([Some profile_yaml] ++ Some bench_yaml :: [None]))
  = Some (YScalar (VStr "hil")).
Proof.
  apply framework_merge_last_profile_wins.
  - constructor; [cbn; intros [H|[]]; discriminate H|].
    constructor; [cbn; tauto|constructor].
  - reflexivity.
  - intros d; discriminate.
  - repeat constructor.
Defined.

Module DomainFacts.

Lemma dict_del_set_fresh {V} k (v : V) c :
  dict_get k c = None -> dict_del k (dict_set k v c) = c.
Proof.
  induction c as [|[k' v'] c IH]; intros H; cbn [dict_set dict_del].
  - now rewrite String.eqb_refl.
  - cbn [dict_get] in H. destruct (String.eqb k k') eqn:E; [discriminate|].
    cbn [dict_del]. rewrite E, IH by exact H. reflexivity.
Qed.

Lemma no_codes_set k store : no_codes store -> no_codes (dict_set k [] store).
Proof.
  unfold no_codes. induction store as [|[k' v'] store IH]; intros H; cbn [dict_set].
  - repeat constructor.
  - inversion H; subst. destruct (String.eqb k k'); constructor; cbn; auto.
Qed.

Lemma no_codes_lookup e store :
  no_codes store -> fst (dtc_lookup e store) = [] /\ no_codes (snd (dtc_lookup e store)).
Proof.
  intros H. unfold dtc_lookup. destruct (dict_get e store) as [codes|] eqn:Eg.
  - apply DictFacts.dict_get_some_in in Eg. split; [|exact H].
    exact (proj1 (Forall_forall (fun p : string * list string => snd p = []) store) H _ Eg).
  - split; [reflexivity|]. now apply no_codes_set.
Qed.

Lemma no_codes_first store : no_codes store -> first_with_codes store = None.
Proof.
  unfold no_codes. induction store as [|[k v] store IH]; intros H; [reflexivity|].
  inversion H as [|? ? Hv Hs]; subst. cbn in Hv. subst v. cbn. now apply IH.
Qed.

Lemma no_codes_map (store : list (string * list string)) :
  no_codes (map (fun p => (fst p, [])) store).
Proof. unfold no_codes. induction store; constructor; cbn; auto. Qed.

Section Ops.
Variable W : Type.
Variable bset : string -> pyval -> W -> result unit * W.
Variable bassert : string -> pyval -> Z -> W -> result unit * W.

Lemma verify_clean e ds w :
  no_codes (dtc_store ds) ->
  no_codes (dtc_store (fst (snd (verify_no_active_dtc W bassert e (ds, w)))))
  /\ fst (verify_no_active_dtc W bassert e (ds, w))
     = fst (bassert "ActiveDtcCount" (VInt 0) 2000 w).
Proof.
  intros H. unfold verify_no_active_dtc.
  destruct e as [e|]; [destruct (truthy (Some e)) eqn:Et|].
  - destruct (no_codes_lookup e _ H) as [H1 H2].
    destruct (dtc_lookup e (dtc_store ds)) as [codes store]. cbn in H1, H2. subst codes.
    destruct (bassert "ActiveDtcCount" (VInt 0) 2000 w). split; [exact H2|reflexivity].
  - rewrite (no_codes_first _ H).
    destruct (bassert "ActiveDtcCount" (VInt 0) 2000 w). split; [exact H|reflexivity].
  - cbn [truthy]. rewrite (no_codes_first _ H).
    destruct (bassert "ActiveDtcCount" (VInt 0) 2000 w). split; [exact H|reflexivity].
Qed.

Lemma run_clean ops : forall st,
  no_codes (dtc_store (fst st)) ->
  no_codes (dtc_store (fst (run_dtc_ops bset bassert ops st))).
Proof.
  induction ops as [|op ops IH]; intros [ds w] H; cbn [run_dtc_ops]; [exact H|].
  apply IH. cbn [fst] in H. destruct op as [e|e|e].
  - unfold read_dtc. destruct (no_codes_lookup e _ H) as [_ H2].
    destruct (dtc_lookup e (dtc_store ds)). exact H2.
  - unfold clear_dtc. destruct (bset "ActiveDtcCount" (VInt 0) w) as [r w'].
    cbn [snd fst dtc_store with_dtc_store].
    destruct e as [e|]; [destruct (truthy (Some e))|].
    + apply no_codes_set. exact (proj2 (no_codes_lookup e _ H)).
    + apply no_codes_map.
    + apply no_codes_map.
  - exact (proj1 (verify_clean e ds w H)).
Qed.

End Ops.

End DomainFacts.

(** X26: starting a capture records the time; starting it again raises
    [EnvironmentFault] and changes nothing; stopping it returns the
    elapsed time and forgets the capture; stopping a capture that was
    never started raises [EnvironmentFault]. *)
Theorem start_stop_capture W time_time ch ds w t1 w1 t2 w2 :
  dict_get ch (captures ds) = None ->
  time_time w = (t1, w1) -> time_time w1 = (t2, w2) ->
  let st1 := (with_captures (dict_set ch t1 (captures ds)) ds, w1) in
  start_capture W time_time ch (ds, w) = (Ok tt, st1)
  /\ start_capture W time_time ch st1
     = (Raise (EnvironmentFault ("Capture for " ++ ch ++ " already running") None), st1)
  /\ stop_capture W time_time ch st1 = (Ok (t2 - t1)%Z, (ds, w2))
  /\ stop_capture W time_time ch (ds, w)
     = (Raise (EnvironmentFault ("Capture for " ++ ch ++ " was not started") None), (ds, w)).
Proof.
  intros Hn H1 H2 st1. unfold start_capture, stop_capture, st1. cbn [captures with_captures].
  rewrite Hn, H1, DictFacts.dict_get_set, String.eqb_refl, H2.
  rewrite DomainFacts.dict_del_set_fresh by exact Hn.
  destruct ds. repeat split; reflexivity.
Qed.

Lemma start_stop_capture_witness :
  let st1 := (with_captures (dict_set "CAN1" 100%Z (captures domain_init)) domain_init, 101%Z) in
  start_capture Z tick_clock "CAN1" (domain_init, 100%Z) = (Ok tt, st1)
  /\ start_capture Z tick_clock "CAN1" st1
     = (Raise (EnvironmentFault ("Capture for " ++ "CAN1" ++ " already running") None), st1)
  /\ stop_capture Z tick_clock "CAN1" st1 = (Ok (101 - 100)%Z, (domain_init, 102%Z))
  /\ stop_capture Z tick_clock "CAN1" (domain_init, 100%Z)
     = (Raise (EnvironmentFault ("Capture for " ++ "CAN1" ++ " was not started") None),
        (domain_init, 100%Z)).
Proof. apply start_stop_capture; reflexivity. Defined.

(** X27: no method of [DomainService] ever stores a DTC code: whatever
    sequence of [read_dtc], [clear_dtc] and [verify_no_active_dtc] calls
    has run, [read_dtc] returns an empty list and [verify_no_active_dtc]
    never raises its own [SutFault]: its outcome is the broker's
    assertion that [ActiveDtcCount] is 0. *)
Theorem dtc_store_stays_empty W bset bassert ops w ecu e :
  let st := run_dtc_ops bset bassert ops (domain_init, w) in
  fst (read_dtc W ecu st) = Ok []
  /\ fst (verify_no_active_dtc W bassert e st)
     = fst (bassert "ActiveDtcCount" (VInt 0) 2000%Z (snd st)).
Proof.
  intros st.
  assert (H : no_codes (dtc_store (fst st)))
    by (apply DomainFacts.run_clean; constructor).
  destruct st as [ds w'] eqn:Est. cbn [fst snd] in *. split.
  - unfold read_dtc. destruct (DomainFacts.no_codes_lookup ecu _ H) as [H1 _].
    destruct (dtc_lookup ecu (dtc_store ds)). exact (f_equal Ok H1).
  - exact (proj2 (DomainFacts.verify_clean W bassert e ds w' H)).
Qed.

(** X28: [force_backend_action] marks the normalised command [PENDING];
    a later [wait_backend_ack] for any spelling with the same
    normalisation replaces that mark by the upper-cased expected state
    when the acknowledgement arrives, and leaves it [PENDING] when the
    broker's wait raises. *)
Theorem backend_ack_overwrites_pending W bset bwait c c' e ds w :
  normalize_command c' = normalize_command c ->
  let st := snd (force_backend_action W bset c (ds, w)) in
  dict_get (normalize_command c) (backend_commands (fst st)) = Some "PENDING"
  /\ dict_get (normalize_command c)
       (backend_commands (fst (snd (wait_backend_ack W bwait c' e st))))
     = Some (match fst (bwait "BackendCommandAck" (VStr (upper e)) 10000%Z (snd st)) with
             | Ok _ => upper e
             | Raise _ => "PENDING"
             end).
Proof.
  intros Hn st. unfold st, force_backend_action.
  destruct (bset "BackendCommandRequest" (VStr (normalize_command c)) w) as [r w1].
  cbn [fst snd backend_commands with_backend_commands].
  rewrite DictFacts.dict_get_set, String.eqb_refl. split; [reflexivity|].
  unfold wait_backend_ack. rewrite Hn.
  destruct (bwait "BackendCommandAck" (VStr (upper e)) 10000%Z w1) as [[u|ex] w2];
    cbn [fst snd backend_commands with_backend_commands].
  - now rewrite DictFacts.dict_get_set, String.eqb_refl.
  - now rewrite DictFacts.dict_get_set, String.eqb_refl.
Qed.

Lemma backend_ack_overwrites_pending_witness :
  let st := snd (force_backend_action (list pyval) echo_set "door unlock" (domain_init, [])) in
  dict_get (normalize_command "door unlock") (backend_commands (fst st)) = Some "PENDING"
  /\ dict_get (normalize_command "door unlock")
       (backend_commands (fst (snd (wait_backend_ack (list pyval) ack_seen "Door Unlock" "done" st))))
     = Some (match fst (ack_seen "BackendCommandAck" (VStr (upper "done")) 10000%Z (snd st)) with
             | Ok _ => upper "done"
             | Raise _ => "PENDING"
             end).
Proof. apply backend_ack_overwrites_pending. reflexivity. Defined.

Module KeywordFacts.

Lemma lookup_other {F} (kws : list (string * F)) : forall acc k,
  ~ In k (map (fun p => upper (fst p)) kws) ->
  dict_get k (fold_left (fun acc p => dict_set (upper (fst p)) (snd p) acc) kws acc)
  = dict_get k acc.
Proof.
  induction kws as [|[n f] kws IH]; intros acc k Hk; [reflexivity|].
  cbn [fold_left fst snd]. rewrite IH by (intros H; apply Hk; now right).
  rewrite DictFacts.dict_get_set. cbn [map fst] in Hk.
  destruct (String.eqb_spec k (upper n)) as [E|]; [|reflexivity].
  exfalso. apply Hk. now left.
Qed.

Lemma lookup_in {F} (kws : list (string * F)) : forall acc name f,
  NoDup (map (fun p => upper (fst p)) kws) -> In (name, f) kws ->
  dict_get (upper name)
    (fold_left (fun acc p => dict_set (upper (fst p)) (snd p) acc) kws acc) = Some f.
Proof.
  induction kws as [|[n g] kws IH]; intros acc name f Hnd Hin; [destruct Hin|].
  inversion Hnd as [|? ? Hn Hnd']; subst. cbn [fold_left fst snd].
  destruct Hin as [E|Hin].
  - inversion E; subst. rewrite lookup_other by exact Hn.
    now rewrite DictFacts.dict_get_set, String.eqb_refl.
  - exact (IH _ _ _ Hnd' Hin).
Qed.

Lemma contains_sep c p t : contains_char c (p ++ String c t) = true.
Proof.
  unfold contains_char. induction p as [|a p IH]; cbn.
  - now rewrite Ascii.eqb_refl.
  - cbn in IH. rewrite IH. apply orb_true_r.
Qed.

Lemma split_nosep c p t :
  contains_char c p = false -> split_on c (p ++ String c t) = p :: split_on c t.
Proof.
  unfold contains_char. induction p as [|a p IH]; intros H; cbn.
  - now rewrite Ascii.eqb_refl.
  - cbn in H. apply orb_false_iff in H as [Ha Hp].
    rewrite Ascii.eqb_sym, Ha, IH by exact Hp. reflexivity.
Qed.

Lemma split_single c p : contains_char c p = false -> split_on c p = [p].
Proof.
  unfold contains_char. induction p as [|a p IH]; intros H; cbn; [reflexivity|].
  cbn in H. apply orb_false_iff in H as [Ha Hp].
  rewrite Ascii.eqb_sym, Ha, IH by exact Hp. reflexivity.
Qed.

Lemma split_concat ps :
  Forall (fun p => contains_char "," p = false) ps -> ps <> [] ->
  split_on "," (String.concat "," ps) = ps.
Proof.
  induction ps as [|p ps IH]; intros H Hne; [congruence|].
  inversion H as [|? ? Hp Hps]; subst.
  destruct ps as [|q qs].
  - cbn [String.concat]. now apply split_single.
  - change (String.concat "," (p :: q :: qs)) with (p ++ String "," (String.concat "," (q :: qs))).
    rewrite split_nosep by exact Hp. f_equal. apply IH; [exact Hps|discriminate].
Qed.

End KeywordFacts.

(** X29: [run_keyword] finds a keyword whatever the case of the name it
    is given, as long as no two keyword names differ only in case. *)
Theorem run_keyword_any_case F (keywords : list (string * F)) kname f name :
  NoDup (map (fun p => upper (fst p)) keywords) ->
  In (kname, f) keywords -> upper name = upper kname ->
  run_keyword F keywords name = inl f.
Proof.
  intros Hnd Hin Hu. unfold run_keyword, keyword_lookup.
  rewrite Hu, (KeywordFacts.lookup_in keywords [] kname f Hnd Hin). reflexivity.
Qed.

Lemma run_keyword_any_case_witness :
  run_keyword nat [("Set Signal", 1%nat); ("Wait For Signal", 2%nat)] "WAIT for SIGNAL" = inl 2%nat.
Proof.
  apply (run_keyword_any_case nat _ "Wait For Signal").
  - constructor; [cbn; intros [H|[]]; discriminate H|].
    constructor; [cbn; tauto|constructor].
  - right. left. reflexivity.
  - reflexivity.
Defined.

(** X30: [_normalize_signals] gives the same names for one comma-joined
    argument as for the separate arguments, when no name holds a comma. *)
Theorem normalize_signals_joined ps :
  Forall (fun p => contains_char "," p = false) ps ->
  _normalize_signals [String.concat "," ps] = _normalize_signals ps.
Proof.
  intros H. destruct ps as [|p [|q qs]]; [reflexivity|reflexivity|].
  unfold _normalize_signals.
  change (String.concat "," (p :: q :: qs)) with (p ++ String "," (String.concat "," (q :: qs))).
  rewrite KeywordFacts.contains_sep.
  change (p ++ String "," (String.concat "," (q :: qs))) with (String.concat "," (p :: q :: qs)).
  rewrite KeywordFacts.split_concat by (exact H || discriminate). reflexivity.
Qed.

Lemma normalize_signals_joined_witness :
  _normalize_signals [String.concat "," ["VehicleSpeed"; " GearPosition "; ""]]
  = _normalize_signals ["VehicleSpeed"; " GearPosition "; ""].
Proof. apply normalize_signals_joined. repeat constructor. Defined.
